(** * Code actions derived from diagnostics: a shallow embedding of
    [server/src/codeActions.ts] and the properties of its extractors.

    Modelling conventions.
    - A JavaScript string is a [string] of 8-bit characters: compiler messages
      are taken to be ASCII, so a UTF-16 code unit is one [ascii].
    - Line and character numbers are JavaScript numbers used as integers: [Z].
      An array index produced by [forEach] is a [nat].
    - The accumulator [filesCodeActions] is a plain object used as a
      dictionary from file name to an array. Its own properties are a [gmap];
      reading a key that is not an own property falls through to
      [Object.prototype], whose property names are listed in
      [objectPrototypeKeys].
    - An extractor either completes with a boolean or throws; both outcomes
      carry the accumulator as it is at that moment. *)

From Stdlib Require Import ZArith Ascii String.
From stdpp Require Import gmap strings list fin_maps.

Local Open Scope Z_scope.

(** ** JavaScript string and array primitives used by the source *)

Module JS.

Definition char (n : nat) : string := String (ascii_of_nat n) EmptyString.

(** Characters that cannot be written inside a string literal. *)
Definition nl : string := char 10.
Definition dquote : string := char 34.

(** [s.startsWith(p)] *)
Definition startsWith (s p : string) : bool := String.prefix p s.

(** [s.includes(p)] *)
Fixpoint includes (s p : string) : bool :=
  String.prefix p s ||
  match s with
  | EmptyString => false
  | String _ s' => includes s' p
  end.

Fixpoint drop (n : nat) (s : string) : string :=
  match n, s with
  | O, _ => s
  | S _, EmptyString => EmptyString
  | S k, String _ s' => drop k s'
  end.

(** [s.slice(st, en)], with the clamping of negative and oversized
    indices that ECMAScript prescribes. *)
Definition slice (s : string) (st en : Z) : string :=
  let len := Z.of_nat (String.length s) in
  let from := if st <? 0 then Z.max (len + st) 0 else Z.min st len in
  let to := if en <? 0 then Z.max (len + en) 0 else Z.min en len in
  String.substring (Z.to_nat from) (Z.to_nat (Z.max (to - from) 0)) s.

(** [s.slice(st)] *)
Definition sliceFrom (s : string) (st : Z) : string :=
  slice s st (Z.of_nat (String.length s)).

(** White space removed by [trim] (the ASCII part of the ECMAScript set). *)
Definition isWhiteSpace (c : ascii) : bool :=
  let n := nat_of_ascii c in
  ((9 <=? n)%nat && (n <=? 13)%nat) || (n =? 32)%nat.

Fixpoint trimStart (s : string) : string :=
  match s with
  | EmptyString => EmptyString
  | String c s' => if isWhiteSpace c then trimStart s' else s
  end.

Fixpoint trimEnd (s : string) : string :=
  match s with
  | EmptyString => EmptyString
  | String c s' =>
      match trimEnd s' with
      | EmptyString => if isWhiteSpace c then EmptyString else String c EmptyString
      | t => String c t
      end
  end.

(** [s.trim()] *)
Definition trim (s : string) : string := trimEnd (trimStart s).

(** [s.endsWith(p)] *)
Definition endsWith (s p : string) : bool :=
  let ls := String.length s in
  let lp := String.length p in
  (lp <=? ls)%nat && String.eqb (String.substring (ls - lp) lp s) p.

(** [s.split(sep)] for a non-empty separator: [skip] counts the characters
    of a separator occurrence still to be stepped over, [cur] is the piece
    being collected. *)
Fixpoint split_go (sep : string) (skip : nat) (cur : string) (s : string)
  : list string :=
  match s with
  | EmptyString => [cur]
  | String c s' =>
      match skip with
      | S k => split_go sep k cur s'
      | O =>
          if String.prefix sep s
          then cur :: split_go sep (String.length sep - 1) EmptyString s'
          else split_go sep O (cur +:+ String c EmptyString) s'
      end
  end.

Definition split (s sep : string) : list string := split_go sep O EmptyString s.

(** [s.replace(pat, rep)] with a string pattern: the first occurrence only. *)
Fixpoint replace (s pat rep : string) : string :=
  if String.prefix pat s then rep +:+ drop (String.length pat) s
  else match s with
       | EmptyString => EmptyString
       | String c s' => String c (replace s' pat rep)
       end.

(** [s.replace(/c/g, d)] for single characters. *)
Fixpoint replaceAllChar (s : string) (c d : ascii) : string :=
  match s with
  | EmptyString => EmptyString
  | String x s' => String (if Ascii.eqb x c then d else x) (replaceAllChar s' c d)
  end.

(** Number of matches of a one-character global regular expression. *)
Fixpoint countChar (s : string) (c : ascii) : nat :=
  match s with
  | EmptyString => O
  | String x s' => ((if Ascii.eqb x c then 1 else 0) + countChar s' c)%nat
  end.

(** [arr.join(sep)] *)
Definition join (arr : list string) (sep : string) : string := String.concat sep arr.

(** [Array.from({ length: n }).join(sep)]: [ToLength n] undefined elements,
    each printed as the empty string. *)
Definition arrayFromLengthJoin (n : Z) (sep : string) : string :=
  join (repeat EmptyString (Z.to_nat n)) sep.

(** [arr.slice(n)] *)
Definition arraySlice {A} (arr : list A) (n : nat) : list A := skipn n arr.

End JS.

(** ** Data model (the parts of the language-server protocol the module uses) *)

Record Position := { line : Z; character : Z }.
Record Range := { start : Position; end_ : Position }.
Record TextEdit := { range : Range; newText : string }.

(** A diagnostic is opaque to this module: it is only stored in the action. *)
Record Diagnostic := { diag_range : Range; diag_severity : Z; diag_message : string }.

Record WorkspaceEdit := { changes : gmap string (list TextEdit) }.

Record CodeAction := {
  title : string;
  edit : WorkspaceEdit;
  diagnostics : list Diagnostic;
  kind : string;
  isPreferred : bool;
}.

(** One element of the arrays held by the accumulator. *)
Record foundAction := { found_range : Range; codeAction : CodeAction }.

(** What an own property of the accumulator holds: an array of found
    actions, or a value of [Object.prototype] that an assignment has copied
    from the inherited property [key] (a function; truthy, and not an
    array). *)
Inductive stored :=
| Entries (arr : list foundAction)
| Inherited (key : string).

Abbreviation filesCodeActions := (gmap string stored).

(** The property names of [Object.prototype]. All of them hold functions,
    but [__proto__], an accessor that yields [Object.prototype] itself. *)
Definition objectPrototypeKeys : list string :=
  [ "constructor"; "__defineGetter__"; "__defineSetter__"; "hasOwnProperty";
    "__lookupGetter__"; "__lookupSetter__"; "isPrototypeOf"; "propertyIsEnumerable";
    "toString"; "valueOf"; "__proto__"; "toLocaleString" ].

Definition inherited (key : string) : bool := existsb (String.eqb key) objectPrototypeKeys.

(** [p.CodeActionKind.QuickFix], a constant of the protocol library. *)
Definition QuickFix : string := "quickfix".

(** ** Completions: a call returns a value or throws *)

Inductive exn := TypeError (what : string).

Inductive completion (A : Type) :=
| Normal (a : A)
| Throw (e : exn).
Arguments Normal {A} a.
Arguments Throw {A} e.

Record codeActionExtractorConfig := {
  cfg_line : string;
  cfg_index : nat;
  cfg_array : list string;
  cfg_file : string;
  cfg_range : Range;
  cfg_diagnostic : Diagnostic;
}.

(** The mutable [codeActions] field of the configuration is threaded through
    as state: an extractor maps the accumulator before the call to its
    completion and the accumulator after it. *)
Definition codeActionExtractor : Type :=
  codeActionExtractorConfig -> filesCodeActions -> completion bool * filesCodeActions.

(** [codeActions[file]]: the own property, else the inherited one, else
    [undefined] ([None]). *)
Definition getProperty (codeActions : filesCodeActions) (file : string) : option stored :=
  match codeActions !! file with
  | Some v => Some v
  | None => if inherited file then Some (Inherited file) else None
  end.

(** [codeActions[file] = v]: an own property is created or overwritten,
    except that assigning to a [__proto__] that is not an own property runs
    the setter of [Object.prototype]; the only value assigned this way here is
    [Object.prototype] itself, which leaves the object as it is. *)
Definition setProperty (codeActions : filesCodeActions) (file : string) (v : stored)
  : filesCodeActions :=
  match codeActions !! file with
  | None => if String.eqb file "__proto__" then codeActions else <[ file := v ]> codeActions
  | Some _ => <[ file := v ]> codeActions
  end.

(** [codeActions[file] = codeActions[file] || []]: every value that can be
    read is truthy, so the empty array is only used for [undefined]. *)
Definition ensureArray (file : string) (codeActions : filesCodeActions) : filesCodeActions :=
  setProperty codeActions file (default (Entries []) (getProperty codeActions file)).

(** [codeActions[file].push(e)]: a value that is not an array has no [push]. *)
Definition push (file : string) (e : foundAction) (codeActions : filesCodeActions)
  : completion unit * filesCodeActions :=
  match getProperty codeActions file with
  | Some (Entries arr) => (Normal tt, <[ file := Entries (arr ++ [e]) ]> codeActions)
  | Some (Inherited _) =>
      (Throw (TypeError "codeActions[file].push is not a function"), codeActions)
  | None => (Throw (TypeError "codeActions[file] is undefined"), codeActions)
  end.

(** [codeActions[file] = codeActions[file] || []; codeActions[file].push(e)] *)
Definition pushAction (file : string) (e : foundAction) (codeActions : filesCodeActions)
  : completion unit * filesCodeActions :=
  push file e (ensureArray file codeActions).

(** [return b] after a statement that may have thrown. *)
Definition thenReturn {A} (b : A) (r : completion unit * filesCodeActions)
  : completion A * filesCodeActions :=
  match r with
  | (Normal _, codeActions) => (Normal b, codeActions)
  | (Throw e, codeActions) => (Throw e, codeActions)
  end.

(** The object literal every extractor builds around its edits. *)
Definition quickFix (cfg : codeActionExtractorConfig) (ttl : string) (edits : list TextEdit)
  : foundAction :=
  {| found_range := cfg_range cfg;
     codeAction :=
       {| title := ttl;
          edit := {| changes := {[ cfg_file cfg := edits ]} |};
          diagnostics := [cfg_diagnostic cfg];
          kind := QuickFix;
          isPreferred := true |} |}.

Definition pointRange (l c : Z) : Range :=
  {| start := {| line := l; character := c |}; end_ := {| line := l; character := c |} |}.

Definition wrapRangeInText (r : Range) (wrapStart wrapEnd : string) : list TextEdit :=
  let offset :=
    if (line (start r) =? line (end_ r)) && (character (start r) =? character (end_ r))
    then 1 else 0 in
  let startRange := pointRange (line (start r)) (character (start r) - offset) in
  let endRange := pointRange (line (end_ r)) (character (end_ r)) in
  [ {| range := startRange; newText := wrapStart |};
    {| range := endRange; newText := wrapEnd |} ].

Definition insertBeforeEndingChar (r : Range) (text : string) : list TextEdit :=
  let beforeEndingChar := {| line := line (end_ r); character := character (end_ r) - 1 |} in
  [ {| range := {| start := beforeEndingChar; end_ := beforeEndingChar |}; newText := text |} ].

Definition removeTrailingComma (text : string) : string :=
  let str := JS.trim text in
  if JS.endsWith str "," then JS.slice str 0 (Z.of_nat (String.length str) - 1) else str.

(** The loop of [extractTypename]: the pieces pushed onto [arrFiltered]. *)
Fixpoint extractTypename_loop (lines : list string) : list string :=
  match lines with
  | [] => []
  | l :: rest =>
      if JS.includes l "(defined as"
      then [removeTrailingComma (hd EmptyString (JS.split l "(defined as"))]
      else removeTrailingComma l :: extractTypename_loop rest
  end.

Definition extractTypename (lines : list string) : string :=
  JS.trim (JS.join (extractTypename_loop lines) EmptyString).

Fixpoint takeUntil (array : list string) (startsWith : string) : list string :=
  match array with
  | [] => []
  | l :: rest => if JS.startsWith l startsWith then [] else l :: takeUntil rest startsWith
  end.

(** ** The regular expressions of the source, as matchers *)

Module Regex.

Definition inRange (lo hi : nat) (c : ascii) : bool :=
  let n := nat_of_ascii c in (lo <=? n)%nat && (n <=? hi)%nat.

(** [\w], which is also the class [[A-Za-z0-9_]] *)
Definition isWord (c : ascii) : bool :=
  inRange 65 90 c || inRange 97 122 c || inRange 48 57 c || Ascii.eqb c "_".

(** [[\w.]] *)
Definition isWordOrDot (c : ascii) : bool := isWord c || Ascii.eqb c ".".

(** Characters [.] does not match (the ASCII line terminators). *)
Definition isLineTerminator (c : ascii) : bool :=
  Ascii.eqb c (ascii_of_nat 10) || Ascii.eqb c (ascii_of_nat 13).

Fixpoint takeWhile (P : ascii -> bool) (s : string) : string :=
  match s with
  | EmptyString => EmptyString
  | String c s' => if P c then String c (takeWhile P s') else EmptyString
  end.

Fixpoint dropWhile (P : ascii -> bool) (s : string) : string :=
  match s with
  | EmptyString => EmptyString
  | String c s' => if P c then dropWhile P s' else s
  end.

Fixpoint stripPrefix (p s : string) : option string :=
  match p, s with
  | EmptyString, _ => Some s
  | String a p', String b s' => if Ascii.eqb a b then stripPrefix p' s' else None
  | String _ _, EmptyString => None
  end.

Fixpoint removeLast (s : string) : string :=
  match s with
  | EmptyString => EmptyString
  | String c EmptyString => EmptyString
  | String c s' => String c (removeLast s')
  end.

(** An unanchored expression matches at the leftmost position where its
    body matches. *)
Fixpoint search {A} (body : string -> option A) (s : string) : option A :=
  match body s with
  | Some r => Some r
  | None =>
      match s with
      | EmptyString => None
      | String _ s' => search body s'
      end
  end.

(** The expression of [didYouMeanAction] at one position: the literal
    [Did you mean ] (with its space), then an optional capture group holding
    a greedy run of [A-Za-z0-9_]. The result is the capture group: an
    optional group whose iteration would match the empty string is left
    undefined. *)
Definition didYouMeanAt (s : string) : option (option string) :=
  match stripPrefix "Did you mean " s with
  | None => None
  | Some r =>
      match takeWhile isWord r with
      | EmptyString => Some None
      | tok => Some (Some tok)
      end
  end.

Definition didYouMean : string -> option (option string) := search didYouMeanAt.

(** The expression of [simpleConversion] at one position: the literal
    [You can convert ], a group of word characters, [ to ], a second such
    group, [ with ], a group of word characters and dots, one arbitrary
    character (the dot is not escaped) and the end of the input.
    The first two groups are followed by a space, so only their longest
    match can succeed; the third gives back its last character when the run
    reaches the end of the input. *)
Definition conversionAt (s : string) : option (string * string * string) :=
  match stripPrefix "You can convert " s with
  | None => None
  | Some r1 =>
      match stripPrefix " to " (dropWhile isWord r1) with
      | None => None
      | Some r2 =>
          match stripPrefix " with " (dropWhile isWord r2) with
          | None => None
          | Some r3 =>
              let from := takeWhile isWord r1 in
              let to := takeWhile isWord r2 in
              let run := takeWhile isWordOrDot r3 in
              match dropWhile isWordOrDot r3 with
              | EmptyString =>
                  match run with
                  | EmptyString => None
                  | _ => Some (from, to, removeLast run)
                  end
              | String c EmptyString =>
                  if isLineTerminator c then None else Some (from, to, run)
              | _ => None
              end
          end
      end
  end.

Definition conversion : string -> option (string * string * string) :=
  search conversionAt.

End Regex.

(** ** The extractors *)

Definition didYouMeanAction : codeActionExtractor := fun cfg codeActions =>
  if JS.startsWith (cfg_line cfg) "Hint: Did you mean" then
    match Regex.didYouMean (cfg_line cfg) with
    | None => (Normal false, codeActions)
    | Some None => (Normal false, codeActions)
    | Some (Some suggestion) =>
        let edits := [ {| range := cfg_range cfg; newText := suggestion |} ] in
        thenReturn true
         (pushAction (cfg_file cfg)
           (quickFix cfg ("Replace with '" +:+ suggestion +:+ "'") edits) codeActions)
    end
  else (Normal false, codeActions).

(** [line.trim().split("Some record fields are undefined: ")[1]?.split(" ")]:
    [None] stands for [undefined]. *)
Definition firstRecordFieldNames (l : string) : option (list string) :=
  match JS.split (JS.trim l) "Some record fields are undefined: " !! 1%nat with
  | Some names => Some (JS.split names " ")
  | None => None
  end.

(** The [forEach] that pushes the names of the following lines: calling
    [push] on [undefined] throws at the first following line. *)
Definition collectRecordFieldNames (recordFieldNames : option (list string))
    (following : list string) : completion (option (list string)) :=
  match recordFieldNames, following with
  | None, [] => Normal None
  | None, _ :: _ => Throw (TypeError "recordFieldNames is undefined")
  | Some names, _ =>
      Normal (Some (names ++ flat_map (fun l => JS.split (JS.trim l) " ") following))
  end.

(** The text built for a record body that spans several lines. *)
Definition multilineRecordFieldsText (r : Range) (recordFieldNames : list string) : string :=
  let paddingCharacters := character (end_ r) + 2 in
  let paddingContentRecordField := JS.arrayFromLengthJoin paddingCharacters " " in
  let paddingContentEndBrace := JS.arrayFromLengthJoin (character (end_ r)) " " in
  JS.join
    (imap (fun index fieldName =>
             (if (index =? 0)%nat then "  " else paddingContentRecordField)
             +:+ fieldName +:+ ": assert false," +:+ JS.nl)
          recordFieldNames) EmptyString
  +:+ paddingContentEndBrace.

(** The text built for a record body on a single line. *)
Definition singleLineRecordFieldsText (recordFieldNames : list string) : string :=
  ", " +:+ JS.join (map (fun fieldName => fieldName +:+ ": assert false") recordFieldNames) ", ".

Definition addUndefinedRecordFields : codeActionExtractor := fun cfg codeActions =>
  if JS.startsWith (cfg_line cfg) "Some record fields are undefined:" then
    match collectRecordFieldNames (firstRecordFieldNames (cfg_line cfg))
            (JS.arraySlice (cfg_array cfg) (cfg_index cfg + 1)) with
    | Throw e => (Throw e, codeActions)
    | Normal None => (Normal false, codeActions)
    | Normal (Some recordFieldNames) =>
        let r := cfg_range cfg in
        let multilineRecordDefinitionBody := negb (line (start r) =? line (end_ r)) in
        let text :=
          if multilineRecordDefinitionBody
          then multilineRecordFieldsText r recordFieldNames
          else singleLineRecordFieldsText recordFieldNames in
        thenReturn true
         (pushAction (cfg_file cfg)
           (quickFix cfg "Add missing record fields" (insertBeforeEndingChar r text))
           codeActions)
    end
  else (Normal false, codeActions).

Definition simpleConversion : codeActionExtractor := fun cfg codeActions =>
  if JS.startsWith (cfg_line cfg) "You can convert " then
    match Regex.conversion (cfg_line cfg) with
    | None => (Normal false, codeActions)
    | Some (from, to, fn) =>
        thenReturn true
         (pushAction (cfg_file cfg)
           (quickFix cfg ("Convert " +:+ from +:+ " to " +:+ to +:+ " with " +:+ fn)
              (wrapRangeInText (cfg_range cfg) (fn +:+ "(") ")"))
           codeActions)
    end
  else (Normal false, codeActions).

Definition applyUncurried : codeActionExtractor := fun cfg codeActions =>
  if JS.startsWith (cfg_line cfg)
       "This is an uncurried ReScript function. It must be applied with a dot."
  then
    let r := cfg_range cfg in
    let locOfOpenFnParens := {| line := line (end_ r); character := character (end_ r) + 1 |} in
    let edits :=
      [ {| range := {| start := locOfOpenFnParens; end_ := locOfOpenFnParens |};
           newText := ". " |} ] in
    thenReturn true
     (pushAction (cfg_file cfg)
       (quickFix cfg "Apply uncurried function call with dot" edits) codeActions)
  else (Normal false, codeActions).

(** [transformMatchPattern] calls itself on the payload. The recursion is not
    structural, so it is unrolled [fuel] times; the outer [None] means the
    fuel ran out, the inner one is [null]. [transformMatchPattern_fuel_enough]
    below shows that the fuel given by [transformMatchPattern] always
    suffices. The last branch of the inner [match] is dead: a text that
    includes a space splits into at least two pieces. *)
Fixpoint transformMatchPattern_fuel (fuel : nat) (matchPattern : string)
  : option (option string) :=
  match fuel with
  | O => None
  | S fuel' =>
      if JS.includes matchPattern "(" || JS.includes matchPattern "{" then Some None
      else
        let text := JS.replaceAllChar matchPattern "`" "#" in
        if (2 <? JS.countChar text " ")%nat then Some None
        else if JS.includes text " " then
          match JS.split text " " with
          | variantText :: payloadText :: _ =>
              match transformMatchPattern_fuel fuel' payloadText with
              | None => None
              | Some None => Some None
              | Some (Some transformedPayloadText) =>
                  Some (Some (variantText +:+ "(" +:+ payloadText +:+ ")"))
              end
          | _ => Some None
          end
        else Some (Some text)
  end.

Definition transformMatchPattern (matchPattern : string) : option string :=
  match transformMatchPattern_fuel (S (String.length matchPattern)) matchPattern with
  | Some r => r
  | None => None
  end.

(** [.filter(Boolean)] on an array of strings and nulls: the empty string is
    falsy too. *)
Definition filterBoolean (arr : list (option string)) : list string :=
  flat_map (fun o => match o with
                     | Some (String c s) => [String c s]
                     | _ => []
                     end) arr.

(** The example text after the trigger line, joined, trimmed and stripped of
    its first and last character. *)
Definition allCasesAsOneLine (cfg : codeActionExtractorConfig) : string :=
  let joined := JS.trim (JS.join (JS.arraySlice (cfg_array cfg) (cfg_index cfg + 1)) EmptyString) in
  JS.slice joined 1 (Z.of_nat (String.length joined) - 1).

Definition missingCases (oneLine : string) : list string :=
  if JS.includes oneLine "|"
  then filterBoolean (map transformMatchPattern (JS.split oneLine "|"))
  else match transformMatchPattern oneLine with
       | Some transformed => [transformed]
       | None => []
       end.

Definition missingCasesText (r : Range) (cases : list string) : string :=
  let paddingContentSwitchCase := JS.arrayFromLengthJoin (character (end_ r)) " " in
  JS.join
    (imap (fun index variantName =>
             let padding := if (index =? 0)%nat then EmptyString else paddingContentSwitchCase in
             padding +:+ "| " +:+ variantName +:+ " => assert false")
          cases) JS.nl
  +:+ JS.nl +:+ paddingContentSwitchCase.

Definition simpleAddMissingCases : codeActionExtractor := fun cfg codeActions =>
  if JS.startsWith (cfg_line cfg) "You forgot to handle a possible case here, for example:"
  then
    let oneLine := allCasesAsOneLine cfg in
    if JS.includes oneLine "(" then (Normal false, codeActions)
    else
      let cases := missingCases oneLine in
      if (length cases =? 0)%nat then (Normal false, codeActions)
      else
        thenReturn true
         (pushAction (cfg_file cfg)
           (quickFix cfg "Insert missing cases"
              (insertBeforeEndingChar (cfg_range cfg) (missingCasesText (cfg_range cfg) cases)))
           codeActions)
  else (Normal false, codeActions).

(** The two normalised type names of [simpleTypeMismatches]:
    [(thisHasType, somewhereWanted)]. *)
Definition mismatchTypes (cfg : codeActionExtractorConfig) : string * string :=
  let lookFor := "This has type:" in
  let thisHasTypeArr :=
    takeUntil (JS.sliceFrom (cfg_line cfg) (Z.of_nat (String.length lookFor))
                 :: JS.arraySlice (cfg_array cfg) (cfg_index cfg + 1))
              "Somewhere wanted:" in
  let somewhereWantedArr :=
    map (fun l => JS.replace l "Somewhere wanted:" EmptyString)
        (JS.arraySlice (cfg_array cfg) (cfg_index cfg + length thisHasTypeArr)) in
  (extractTypename thisHasTypeArr, extractTypename somewhereWantedArr).

(** The [switch] over [somewhereWanted] that picks the default value. *)
Definition defaultValue (somewhereWanted : string) : string :=
  if String.eqb somewhereWanted "string" then JS.dquote +:+ "-" +:+ JS.dquote
  else if String.eqb somewhereWanted "bool" then "false"
  else if String.eqb somewhereWanted "int" then "-1"
  else if String.eqb somewhereWanted "float" then "-1."
  else "assert false".

Definition simpleTypeMismatches : codeActionExtractor := fun cfg codeActions =>
  if JS.startsWith (cfg_line cfg) "This has type:" then
    let '(thisHasType, somewhereWanted) := mismatchTypes cfg in
    if String.eqb thisHasType ("option<" +:+ somewhereWanted +:+ ">") then
      thenReturn true
       (pushAction (cfg_file cfg)
         (quickFix cfg "Unwrap optional value"
            (wrapRangeInText (cfg_range cfg) "switch "
               (" { | None => " +:+ defaultValue somewhereWanted +:+ " | Some(v) => v }")))
         codeActions)
    else if String.eqb ("option<" +:+ thisHasType +:+ ">") somewhereWanted then
      thenReturn true
       (pushAction (cfg_file cfg)
         (quickFix cfg "Wrap value in Some" (wrapRangeInText (cfg_range cfg) "Some(" ")"))
         codeActions)
    else (Normal false, codeActions)
  else (Normal false, codeActions).

(** ** The dispatcher *)

Record findCodeActionsConfig := {
  diagnostic : Diagnostic;
  diagnosticMessage : list string;
  file : string;
  frange : Range;
}.

(** What the dispatcher can change: the accumulator handed in by the caller
    ([addFoundActionsHere]) and what [console.error] has printed. *)
Definition world : Type := filesCodeActions * list exn.

Definition codeActionEtractors : list codeActionExtractor :=
  [ simpleTypeMismatches;
    didYouMeanAction;
    addUndefinedRecordFields;
    simpleConversion;
    applyUncurried;
    simpleAddMissingCases ].

(** [try { didFindAction = extractCodeAction(...) } catch (e) { console.error(e) }]:
    the value of [didFindAction] afterwards. *)
Definition tryExtract (extractCodeAction : codeActionExtractor)
    (cfg : codeActionExtractorConfig) (w : world) : bool * world :=
  match extractCodeAction cfg (fst w) with
  | (Normal didFindAction, codeActions) => (didFindAction, (codeActions, snd w))
  | (Throw e, codeActions) => (false, (codeActions, snd w ++ [e]))
  end.

(** The [for ... of] loop over the extractors, with its [break]. *)
Fixpoint forExtractors (extractors : list codeActionExtractor)
    (cfg : codeActionExtractorConfig) (w : world) : completion unit * world :=
  match extractors with
  | [] => (Normal tt, w)
  | extractCodeAction :: rest =>
      let '(didFindAction, w') := tryExtract extractCodeAction cfg w in
      if didFindAction then (Normal tt, w') else forExtractors rest cfg w'
  end.

(** [array.forEach(callback)]: the callback sees the element, its index and
    the array; a callback that throws ends the iteration. *)
Fixpoint forEach_from {A} (callback : A -> nat -> list A -> world -> completion unit * world)
    (array : list A) (index : nat) (remaining : list A) (w : world)
  : completion unit * world :=
  match remaining with
  | [] => (Normal tt, w)
  | x :: rest =>
      match callback x index array w with
      | (Normal _, w') => forEach_from callback array (S index) rest w'
      | (Throw e, w') => (Throw e, w')
      end
  end.

Definition forEach {A} (array : list A)
    (callback : A -> nat -> list A -> world -> completion unit * world) (w : world)
  : completion unit * world :=
  forEach_from callback array O array w.

Definition extractorConfig (cfg : findCodeActionsConfig)
    (l : string) (index : nat) (array : list string) : codeActionExtractorConfig :=
  {| cfg_line := l; cfg_index := index; cfg_array := array;
     cfg_file := file cfg; cfg_range := frange cfg; cfg_diagnostic := diagnostic cfg |}.

(** The dispatcher over an arbitrary list of extractors. *)
Definition findCodeActionsWith (extractors : list codeActionExtractor)
    (cfg : findCodeActionsConfig) (w : world) : completion unit * world :=
  forEach (diagnosticMessage cfg)
    (fun l index array => forExtractors extractors (extractorConfig cfg l index array)) w.

Definition findCodeActionsInDiagnosticsMessage
  : findCodeActionsConfig -> world -> completion unit * world :=
  findCodeActionsWith codeActionEtractors.

(** ** Vocabulary of the statements *)

(** Every character of [s] satisfies [P]. *)
Fixpoint allChars (P : ascii -> bool) (s : string) : bool :=
  match s with
  | EmptyString => true
  | String c s' => P c && allChars P s'
  end.

(** [s] is empty or begins with a character outside [P]. *)
Definition stopsAt (P : ascii -> bool) (s : string) : bool :=
  match s with
  | EmptyString => true
  | String c _ => negb (P c)
  end.

(** A run of [n] spaces. *)
Fixpoint spaces (n : nat) : string :=
  match n with
  | O => EmptyString
  | S k => String " " (spaces k)
  end.

(** An extractor reports a match. *)
Definition reportsMatch (ex : codeActionExtractor) (cfg : codeActionExtractorConfig)
    (codeActions : filesCodeActions) : bool :=
  match fst (ex cfg codeActions) with
  | Normal true => true
  | _ => false
  end.

(** An extractor with every throw replaced by a plain no-match: the result
    is [false] and the accumulator is the one the extractor was given, as
    after any of the [return false] of the source. *)
Definition asNoMatch (ex : codeActionExtractor) : codeActionExtractor :=
  fun cfg codeActions =>
    match ex cfg codeActions with
    | (Throw _, _) => (Normal false, codeActions)
    | r => r
    end.

(** The extractors the loop over [extractors] invokes on one line, in the
    order of invocation: [triedInOrder cfg w tried found w'] says that the
    extractors of [tried] were invoked one after the other starting in world
    [w], each on the world left by the one before, that every one but the last
    reported no match (by returning false or by throwing), that the last one
    reported [found], and that [w'] is the world afterwards. *)
Inductive triedInOrder (cfg : codeActionExtractorConfig)
  : world -> list codeActionExtractor -> bool -> world -> Prop :=
| tried_none w : triedInOrder cfg w [] false w
| tried_match ex w w' :
    tryExtract ex cfg w = (true, w') -> triedInOrder cfg w [ex] true w'
| tried_next ex rest found w w1 w' :
    tryExtract ex cfg w = (false, w1) ->
    triedInOrder cfg w1 rest found w' ->
    triedInOrder cfg w (ex :: rest) found w'.

(** One unrolling of [transformMatchPattern_fuel], with the recursive call
    abstracted. *)
Definition transformMatchPattern_body (self : string -> option (option string))
    (matchPattern : string) : option (option string) :=
  if JS.includes matchPattern "(" || JS.includes matchPattern "{" then Some None
  else
    let text := JS.replaceAllChar matchPattern "`" "#" in
    if (2 <? JS.countChar text " ")%nat then Some None
    else if JS.includes text " " then
      match JS.split text " " with
      | variantText :: payloadText :: _ =>
          match self payloadText with
          | None => None
          | Some None => Some None
          | Some (Some _) => Some (Some (variantText +:+ "(" +:+ payloadText +:+ ")"))
          end
      | _ => Some None
      end
    else Some (Some text).

#[local] Instance Position_eq_dec : EqDecision Position.
Proof. solve_decision. Defined.

(** ** Sample inputs *)

Definition sampleRange : Range :=
  {| start := {| line := 3; character := 4 |}; end_ := {| line := 3; character := 9 |} |}.

Definition sampleMultilineRange : Range :=
  {| start := {| line := 3; character := 4 |}; end_ := {| line := 5; character := 3 |} |}.

Definition sampleDiagnostic : Diagnostic :=
  {| diag_range := sampleRange; diag_severity := 1; diag_message := "compiler output" |}.

Definition sampleConfig (message : list string) (r : Range) : findCodeActionsConfig :=
  {| diagnostic := sampleDiagnostic; diagnosticMessage := message;
     file := "src/Demo.res"; frange := r |}.

(** The configuration an extractor receives for line [index] of [message]. *)
Definition sampleLineConfig (message : list string) (index : nat) (r : Range)
  : codeActionExtractorConfig :=
  extractorConfig (sampleConfig message r) (nth index message EmptyString) index message.

(** ** Vocabulary for the properties of a whole pass *)

(** What a call of an extractor amounts to, whatever the accumulator holds:
    no match, an exception, or one action with a title and edits. *)
Inductive outcome :=
| NoMatch
| Threw (e : exn)
| Found (ttl : string) (edits : list TextEdit).

Definition complete (cfg : codeActionExtractorConfig) (o : outcome)
    (codeActions : filesCodeActions) : completion bool * filesCodeActions :=
  match o with
  | NoMatch => (Normal false, codeActions)
  | Threw e => (Throw e, codeActions)
  | Found ttl edits =>
      thenReturn true (pushAction (cfg_file cfg) (quickFix cfg ttl edits) codeActions)
  end.

(** An edit that inserts text and deletes none. *)
Definition zeroWidth (e : TextEdit) : Prop := start (range e) = end_ (range e).

(** Edits that either replace the range [r] by one text or only insert. *)
Definition replacesOrInserts (r : Range) (edits : list TextEdit) : Prop :=
  (exists text, edits = [ {| range := r; newText := text |} ])
  \/ Forall zeroWidth edits.

(** The literal each extractor looks for at the start of the line. *)
Definition registeredTriggers : list (string * codeActionExtractor) :=
  [ ("This has type:", simpleTypeMismatches);
    ("Hint: Did you mean", didYouMeanAction);
    ("Some record fields are undefined:", addUndefinedRecordFields);
    ("You can convert ", simpleConversion);
    ("This is an uncurried ReScript function. It must be applied with a dot.",
     applyUncurried);
    ("You forgot to handle a possible case here, for example:", simpleAddMissingCases) ].

(** A line none of the extractors reacts to. *)
Definition noTrigger (l : string) : Prop :=
  Forall (fun te : string * codeActionExtractor => JS.startsWith l (fst te) = false)
         registeredTriggers.

(** An extractor that reports no match and leaves the accumulator alone. *)
Definition quiet (cfg : codeActionExtractorConfig) (ex : codeActionExtractor) : Prop :=
  forall codeActions, ex cfg codeActions = (Normal false, codeActions).

(** An extractor with trigger [trigger]: its outcome does not depend on the
    accumulator, it is [NoMatch] off the trigger, and its edits replace the
    diagnosed range or only insert. *)
Definition hasOutcome (trigger : string) (ex : codeActionExtractor) : Prop :=
  forall cfg, exists o,
    (forall codeActions, ex cfg codeActions = complete cfg o codeActions)
    /\ (JS.startsWith (cfg_line cfg) trigger = false -> o = NoMatch)
    /\ (forall ttl edits, o = Found ttl edits -> replacesOrInserts (cfg_range cfg) edits).

(** The array stored for [f]; empty when there is none. *)
Definition entries (codeActions : filesCodeActions) (f : string) : list foundAction :=
  match codeActions !! f with
  | Some (Entries arr) => arr
  | _ => []
  end.

(** The slot of [f] is absent (reading it gives [undefined]) or holds an
    array: the two states in which [push] finds an array. *)
Definition arraySlot (codeActions : filesCodeActions) (f : string) : bool :=
  match codeActions !! f with
  | Some (Entries _) => true
  | Some (Inherited _) => false
  | None => negb (inherited f)
  end.

(** [codeActions'] is [codeActions] with [found] added at the end of the
    array of [f], and nothing else changed. *)
Definition pushedOnto (codeActions codeActions' : filesCodeActions) (f : string)
    (found : foundAction) : Prop :=
  codeActions' !! f = Some (Entries (entries codeActions f ++ [found]))
  /\ forall other, other <> f -> codeActions' !! other = codeActions !! other.

(** The action the statements expect to find stored. *)
Definition expectedAction (r : Range) (d : Diagnostic) (f ttl : string)
    (edits : list TextEdit) : foundAction :=
  {| found_range := r;
     codeAction :=
       {| title := ttl;
          edit := {| changes := {[ f := edits ]} |};
          diagnostics := [d];
          kind := "quickfix";
          isPreferred := true |} |}.

(** The accumulator with [found] at the end of the array of [f]. *)
Definition appended (f : string) (found : foundAction) (codeActions : filesCodeActions)
  : filesCodeActions :=
  <[ f := Entries (entries codeActions f ++ [found]) ]> codeActions.

(** Several actions appended for one file, in order. *)
Definition pushAll (f : string) (added : list foundAction) (codeActions : filesCodeActions)
  : filesCodeActions :=
  foldl (fun acc found => appended f found acc) codeActions added.

Definition actionShape (cfg : findCodeActionsConfig) (found : foundAction) : Prop :=
  exists ttl edits,
    found = expectedAction (frange cfg) (diagnostic cfg) (file cfg) ttl edits
    /\ replacesOrInserts (frange cfg) edits.

(** [codeActions'] is [codeActions] with the actions [added], in order, at
    the end of the array of [f], and nothing else changed; with nothing to
    add the accumulator is the same, the slot of [f] is not even created. *)
Definition extendedBy (codeActions codeActions' : filesCodeActions) (f : string)
    (added : list foundAction) : Prop :=
  match added with
  | [] => codeActions' = codeActions
  | _ :: _ =>
      codeActions' !! f = Some (Entries (entries codeActions f ++ added))
      /\ forall other, other <> f -> codeActions' !! other = codeActions !! other
  end.

(** Two registered triggers neither of which is a prefix of the other. *)
Definition incomparable (a b : string * codeActionExtractor) : Prop :=
  String.prefix (fst a) (fst b) = false /\ String.prefix (fst b) (fst a) = false.

(** A second sample diagnostic, for another file. *)
Definition otherSampleConfig (message : list string) (r : Range) : findCodeActionsConfig :=
  {| diagnostic := sampleDiagnostic; diagnosticMessage := message;
     file := "src/Other.res"; frange := r |}.

(** The one error an extractor throws before it touches the accumulator. *)
Definition recordFieldsError : exn := TypeError "recordFieldNames is undefined".

(** Line [index] of [array] makes the record-fields extractor throw: it
    starts with the trigger, gives no names of its own, and is not the last
    line. *)
Definition throwsOnLine (array : list string) (index : nat) (l : string) : bool :=
  JS.startsWith l "Some record fields are undefined:"
  && match firstRecordFieldNames l with
     | None => true
     | Some _ => false
     end
  && (index + 1 <? length array)%nat.

(** The errors of the lines [remaining], which start at [index] of [array]. *)
Fixpoint errorsFrom (array : list string) (index : nat) (remaining : list string)
  : list exn :=
  match remaining with
  | [] => []
  | l :: rest =>
      (if throwsOnLine array index l then [recordFieldsError] else [])
      ++ errorsFrom array (S index) rest
  end.

(** A diagnostic whose file name is a property name of [Object.prototype]. *)
Definition inheritedKeyConfig (message : list string) (r : Range) : findCodeActionsConfig :=
  {| diagnostic := sampleDiagnostic; diagnosticMessage := message;
     file := "constructor"; frange := r |}.

(** ** The primitives on examples *)

Example split_pipe : JS.split "a|b|" "|" = ["a"; "b"; EmptyString].
Proof. reflexivity. Qed.
Example split_long : JS.split "x(defined as y" "(defined as" = ["x"; " y"].
Proof. reflexivity. Qed.
Example trim_ex : JS.trim "  a b  " = "a b".
Proof. reflexivity. Qed.
Example slice_ex :
  JS.slice "(ab)" 1 3 = "ab"
  /\ JS.slice EmptyString 1 (-1) = EmptyString
  /\ JS.slice "a" 1 0 = EmptyString.
Proof. repeat split. Qed.
Example pad_ex :
  JS.arrayFromLengthJoin 3 " " = "  " /\ JS.arrayFromLengthJoin 0 " " = EmptyString.
Proof. repeat split. Qed.

Example didYouMean_ex :
  Regex.didYouMean "Hint: Did you mean someIdent" = Some (Some "someIdent")
  /\ Regex.didYouMean "Hint: Did you mean " = Some None
  /\ Regex.didYouMean "Hint: Did you mean" = None.
Proof. repeat split. Qed.

Example conversion_ex :
  Regex.conversion "You can convert int to float with Belt.Float.fromInt."
  = Some ("int", "float", "Belt.Float.fromInt").
Proof. reflexivity. Qed.

(** ** Facts about the string primitives *)

Section StringFacts.

Lemma append_cons (c : ascii) (s t : string) : String c s +:+ t = String c (s +:+ t).
Proof. reflexivity. Qed.

Lemma append_nil_l (t : string) : EmptyString +:+ t = t.
Proof. reflexivity. Qed.

Lemma append_nil_r (s : string) : s +:+ EmptyString = s.
Proof. induction s as [|c s IH]; [reflexivity | now rewrite append_cons, IH]. Qed.

Lemma append_assoc (a b c : string) : (a +:+ b) +:+ c = a +:+ (b +:+ c).
Proof. induction a as [|x a IH]; [reflexivity | now rewrite !append_cons, IH]. Qed.

Lemma length_append (a b : string) :
  String.length (a +:+ b) = (String.length a + String.length b)%nat.
Proof. induction a as [|x a IH]; [reflexivity | rewrite append_cons; simpl; now rewrite IH]. Qed.

Lemma stripPrefix_append (p s : string) : Regex.stripPrefix p (p +:+ s) = Some s.
Proof.
  induction p as [|c p IH].
  - now destruct s.
  - rewrite append_cons. simpl. now rewrite Ascii.eqb_refl.
Qed.

Lemma takeWhile_append P (tok rest : string) :
  allChars P tok = true -> stopsAt P rest = true ->
  Regex.takeWhile P (tok +:+ rest) = tok.
Proof.
  intros Htok Hrest. induction tok as [|c tok IH].
  - rewrite append_nil_l. destruct rest as [|d rest]; simpl in *; [reflexivity|].
    now destruct (P d).
  - rewrite append_cons. simpl in *.
    apply andb_prop in Htok as [Hc Htok]. rewrite Hc. now rewrite IH.
Qed.

Lemma dropWhile_append P (tok rest : string) :
  allChars P tok = true -> stopsAt P rest = true ->
  Regex.dropWhile P (tok +:+ rest) = rest.
Proof.
  intros Htok Hrest. induction tok as [|c tok IH].
  - rewrite append_nil_l. destruct rest as [|d rest]; simpl in *; [reflexivity|].
    now destruct (P d).
  - rewrite append_cons. simpl in *.
    apply andb_prop in Htok as [Hc Htok]. rewrite Hc. now apply IH.
Qed.

Lemma removeLast_append_char (s : string) (c : ascii) :
  Regex.removeLast (s +:+ String c EmptyString) = s.
Proof.
  induction s as [|x s IH]; [reflexivity|].
  rewrite append_cons.
  destruct s as [|y s]; [reflexivity|].
  rewrite append_cons in *.
  change (Regex.removeLast (String x (String y (s +:+ String c EmptyString))))
    with (String x (Regex.removeLast (String y (s +:+ String c EmptyString)))).
  now rewrite IH.
Qed.

Lemma search_here {A} (body : string -> option A) (s : string) (r : A) :
  body s = Some r -> Regex.search body s = Some r.
Proof. intros H. destruct s; simpl; now rewrite H. Qed.

Lemma search_skip {A} (body : string -> option A) (c : ascii) (s : string) :
  body (String c s) = None -> Regex.search body (String c s) = Regex.search body s.
Proof. intros H. simpl. now rewrite H. Qed.

Lemma isWord_isWordOrDot (s : string) :
  allChars Regex.isWord s = true -> allChars Regex.isWordOrDot s = true.
Proof.
  induction s as [|c s IH]; simpl; [reflexivity|].
  intros [Hc Hs]%andb_prop. unfold Regex.isWordOrDot at 1. rewrite Hc. simpl. now apply IH.
Qed.

Lemma allChars_append P (a b : string) :
  allChars P (a +:+ b) = allChars P a && allChars P b.
Proof.
  induction a as [|x a IH]; [reflexivity|].
  rewrite append_cons. simpl. now rewrite IH, andb_assoc.
Qed.

(** [Array.from({length: n + 1}).join(" ")] is a run of [n] spaces. *)
Lemma arrayFromLengthJoin_spaces (n : Z) :
  1 <= n -> JS.arrayFromLengthJoin n " " = spaces (Z.to_nat (n - 1)).
Proof.
  intros Hn. unfold JS.arrayFromLengthJoin, JS.join.
  replace (Z.to_nat n) with (S (Z.to_nat (n - 1))) by lia.
  generalize (Z.to_nat (n - 1)) as k. intros k.
  induction k as [|k IH]; [reflexivity|].
  change (repeat EmptyString (S (S k))) with (EmptyString :: repeat EmptyString (S k)).
  change (String.concat " " (EmptyString :: repeat EmptyString (S k)))
    with (EmptyString +:+ " " +:+ String.concat " " (repeat EmptyString (S k))).
  rewrite IH. reflexivity.
Qed.

(** Stripping the first and the last character. *)
Lemma substring_all (s t : string) :
  String.substring 0 (String.length s) (s +:+ t) = s.
Proof.
  induction s as [|c s IH]; [now destruct t|].
  rewrite append_cons. simpl. now rewrite IH.
Qed.

Lemma slice_strip (a b : ascii) (inner : string) :
  let s := String a (inner +:+ String b EmptyString) in
  JS.slice s 1 (Z.of_nat (String.length s) - 1) = inner.
Proof.
  intros s. unfold JS.slice.
  assert (Hlen : String.length s = S (S (String.length inner))).
  { unfold s. simpl. rewrite length_append. simpl. lia. }
  rewrite Hlen.
  set (len := Z.of_nat (S (S (String.length inner)))).
  assert (H1 : (1 <? 0) = false) by reflexivity. rewrite H1.
  assert (H2 : (len - 1 <? 0) = false) by (apply Z.ltb_ge; unfold len; lia). rewrite H2.
  replace (Z.to_nat (Z.min 1 len)) with 1%nat by (unfold len; lia).
  replace (Z.to_nat (Z.max (Z.min (len - 1) len - Z.min 1 len) 0))
    with (String.length inner) by (unfold len; lia).
  unfold s. simpl. apply substring_all.
Qed.

End StringFacts.

(** ** [transformMatchPattern] terminates: the fuel always suffices *)

Section TransformMatchPattern.

Lemma prefix_empty (s : string) : String.prefix EmptyString s = true.
Proof. now destruct s. Qed.

Lemma includes_char_cons (c x : ascii) (s : string) :
  JS.includes (String x s) (String c EmptyString)
  = Ascii.eqb c x || JS.includes s (String c EmptyString).
Proof.
  simpl. destruct (ascii_dec c x) as [->|Hne].
  - now rewrite prefix_empty, Ascii.eqb_refl.
  - apply Ascii.eqb_neq in Hne. now rewrite Hne.
Qed.

Lemma includes_char_nil (c : ascii) : JS.includes EmptyString (String c EmptyString) = false.
Proof. reflexivity. Qed.

Lemma includes_char_append (c : ascii) (a b : string) :
  JS.includes (a +:+ b) (String c EmptyString)
  = JS.includes a (String c EmptyString) || JS.includes b (String c EmptyString).
Proof.
  induction a as [|x a IH]; [reflexivity|].
  rewrite append_cons, !includes_char_cons, IH. now rewrite orb_assoc.
Qed.

Lemma includes_replaceAllChar (s : string) (c d e : ascii) :
  e <> c -> e <> d ->
  JS.includes (JS.replaceAllChar s c d) (String e EmptyString)
  = JS.includes s (String e EmptyString).
Proof.
  intros Hc Hd. induction s as [|x s IH]; [reflexivity|].
  simpl JS.replaceAllChar. rewrite !includes_char_cons, IH. f_equal.
  destruct (Ascii.eqb x c) eqn:Hx.
  - apply Ascii.eqb_eq in Hx as ->.
    apply Ascii.eqb_neq in Hc, Hd. now rewrite Hc, Hd.
  - reflexivity.
Qed.

(** With a one-character separator no piece of a split contains it. *)
Lemma split_go_char_pieces (c : ascii) (s cur : string) :
  JS.includes cur (String c EmptyString) = false ->
  Forall (fun piece => JS.includes piece (String c EmptyString) = false)
         (JS.split_go (String c EmptyString) O cur s).
Proof.
  revert cur. induction s as [|x s IH]; intros cur Hcur.
  - simpl. now constructor.
  - simpl. destruct (ascii_dec c x) as [->|Hne].
    + rewrite prefix_empty. constructor; [assumption|]. now apply IH.
    + apply IH. rewrite includes_char_append, Hcur, includes_char_cons.
      apply Ascii.eqb_neq in Hne. now rewrite Hne.
Qed.

Lemma split_char_pieces (c : ascii) (s : string) :
  Forall (fun piece => JS.includes piece (String c EmptyString) = false)
         (JS.split s (String c EmptyString)).
Proof. now apply split_go_char_pieces. Qed.

(** A text that includes the separator splits into at least two pieces. *)
Lemma split_go_char_two (c : ascii) (s cur : string) :
  JS.includes s (String c EmptyString) = true ->
  exists first second others,
    JS.split_go (String c EmptyString) O cur s = first :: second :: others.
Proof.
  revert cur. induction s as [|x s IH]; intros cur Hs; [discriminate|].
  rewrite includes_char_cons in Hs. simpl.
  destruct (ascii_dec c x) as [->|Hne].
  - rewrite prefix_empty. exists cur.
    destruct s as [|y s]; simpl; [now eexists _, _|].
    destruct (ascii_dec x y); [rewrite prefix_empty; now eexists _, _|].
    destruct (JS.split_go (String x EmptyString) O
                (EmptyString +:+ String y EmptyString) s) eqn:E; [|now eexists _, _].
    exfalso. clear -E. revert E. generalize (EmptyString +:+ String y EmptyString).
    induction s as [|z s IHs]; intros acc; simpl; [discriminate|].
    destruct (ascii_dec x z); [rewrite prefix_empty; discriminate | apply IHs].
  - apply Ascii.eqb_neq in Hne. rewrite Hne in Hs. now apply IH.
Qed.

Lemma split_char_two (c : ascii) (s : string) :
  JS.includes s (String c EmptyString) = true ->
  exists first second others, JS.split s (String c EmptyString) = first :: second :: others.
Proof. apply split_go_char_two. Qed.

Lemma transformMatchPattern_fuel_S (fuel : nat) (s : string) :
  transformMatchPattern_fuel (S fuel) s
  = transformMatchPattern_body (transformMatchPattern_fuel fuel) s.
Proof. reflexivity. Qed.

(** A pattern without a space never calls itself. *)
Lemma transformMatchPattern_fuel_no_space (fuel : nat) (s : string) :
  JS.includes s " " = false ->
  transformMatchPattern_fuel (S fuel) s = transformMatchPattern_fuel 1 s
  /\ transformMatchPattern_fuel 1 s <> None.
Proof.
  intros Hs. rewrite !transformMatchPattern_fuel_S. unfold transformMatchPattern_body.
  destruct (JS.includes s "(" || JS.includes s "{"); [split; [reflexivity | discriminate]|].
  cbv zeta. destruct (2 <? _)%nat; [split; [reflexivity | discriminate]|].
  rewrite includes_replaceAllChar, Hs by discriminate.
  split; [reflexivity | discriminate].
Qed.

Lemma transformMatchPattern_fuel_two (fuel : nat) (s : string) :
  transformMatchPattern_fuel (S (S fuel)) s = transformMatchPattern_fuel 2 s
  /\ transformMatchPattern_fuel 2 s <> None.
Proof.
  rewrite (transformMatchPattern_fuel_S (S fuel)), (transformMatchPattern_fuel_S 1).
  unfold transformMatchPattern_body.
  destruct (JS.includes s "(" || JS.includes s "{"); [split; [reflexivity | discriminate]|].
  cbv zeta. destruct (2 <? _)%nat; [split; [reflexivity | discriminate]|].
  destruct (JS.includes _ " ") eqn:Hsp; [|split; [reflexivity | discriminate]].
  pose proof (split_char_pieces " " (JS.replaceAllChar s "`" "#")) as Hpieces.
  destruct (JS.split _ " ") as [|v [|p others]]; try (split; [reflexivity | discriminate]).
  apply Forall_cons in Hpieces as [_ Hpieces]. apply Forall_cons in Hpieces as [Hp _].
  destruct (transformMatchPattern_fuel_no_space fuel p Hp) as [-> Hsome].
  split; [reflexivity|].
  destruct (transformMatchPattern_fuel 1 p) as [[?|]|]; [discriminate | discriminate | congruence].
Qed.

(** Any fuel of at least two gives the value of [transformMatchPattern]:
    the function is total and the fuel is not observable. *)
Lemma transformMatchPattern_fuel_enough (fuel : nat) (s : string) :
  (2 <= fuel)%nat ->
  transformMatchPattern_fuel fuel s = Some (transformMatchPattern s).
Proof.
  intros Hfuel. destruct fuel as [|[|fuel]]; [lia | lia |].
  destruct (transformMatchPattern_fuel_two fuel s) as [-> Hsome].
  unfold transformMatchPattern. destruct s as [|c s].
  - reflexivity.
  - simpl String.length.
    destruct (transformMatchPattern_fuel_two (String.length s) (String c s)) as [-> _].
    now destruct (transformMatchPattern_fuel 2 (String c s)).
Qed.

(** The recursive equation of the source function. *)
Lemma transformMatchPattern_unfold (matchPattern : string) :
  Some (transformMatchPattern matchPattern)
  = transformMatchPattern_body (fun p => Some (transformMatchPattern p)) matchPattern.
Proof.
  rewrite <- (transformMatchPattern_fuel_enough 3) by lia.
  rewrite transformMatchPattern_fuel_S. unfold transformMatchPattern_body.
  destruct (_ || _); [reflexivity|]. cbv zeta.
  destruct (2 <? _)%nat; [reflexivity|].
  destruct (JS.includes _ " "); [|reflexivity].
  destruct (JS.split _ " ") as [|v [|p others]]; [reflexivity | reflexivity |].
  now rewrite (transformMatchPattern_fuel_enough 2) by lia.
Qed.

End TransformMatchPattern.

(** ** The accumulator *)

Section Accumulator.

Lemma inherited_proto : inherited "__proto__" = true.
Proof. reflexivity. Qed.

(** On a slot that is absent or holds an array the two statements append. *)
Lemma pushAction_arraySlot (f : string) (found : foundAction) (codeActions : filesCodeActions) :
  arraySlot codeActions f = true ->
  pushAction f found codeActions = (Normal tt, appended f found codeActions).
Proof.
  unfold arraySlot, pushAction, ensureArray, getProperty, setProperty, push, appended, entries.
  destruct (codeActions !! f) as [[arr|key]|] eqn:Hf; [| discriminate |].
  - intros _. simpl. unfold getProperty. rewrite lookup_insert_eq.
    now rewrite insert_insert_eq.
  - intros Hin%negb_true_iff. rewrite Hin. simpl.
    destruct (String.eqb_spec f "__proto__") as [->|_]; [discriminate|].
    unfold getProperty. rewrite lookup_insert_eq. now rewrite insert_insert_eq.
Qed.

Lemma appended_lookup (f : string) (found : foundAction) (codeActions : filesCodeActions) :
  appended f found codeActions !! f = Some (Entries (entries codeActions f ++ [found])).
Proof. apply lookup_insert_eq. Qed.

Lemma appended_lookup_ne (f g : string) (found : foundAction) (codeActions : filesCodeActions) :
  g <> f -> appended f found codeActions !! g = codeActions !! g.
Proof. intros Hne. apply lookup_insert_ne. congruence. Qed.

Lemma appended_pushedOnto (f : string) (found : foundAction) (codeActions : filesCodeActions) :
  pushedOnto codeActions (appended f found codeActions) f found.
Proof. split; [apply appended_lookup | intros; now apply appended_lookup_ne]. Qed.

Lemma appended_arraySlot (f : string) (found : foundAction) (codeActions : filesCodeActions) :
  arraySlot (appended f found codeActions) f = true.
Proof. unfold arraySlot. now rewrite appended_lookup. Qed.

Lemma appended_entries (f : string) (found : foundAction) (codeActions : filesCodeActions) :
  entries (appended f found codeActions) f = entries codeActions f ++ [found].
Proof. unfold entries at 1. now rewrite appended_lookup. Qed.

(** Whatever the slot holds, the two statements touch no other key. *)
Lemma pushAction_other (f g : string) (found : foundAction) (codeActions : filesCodeActions) :
  g <> f -> snd (pushAction f found codeActions) !! g = codeActions !! g.
Proof.
  intros Hne.
  assert (Hensure : ensureArray f codeActions !! g = codeActions !! g).
  { unfold ensureArray, setProperty.
    destruct (codeActions !! f); [now rewrite lookup_insert_ne by congruence|].
    destruct (String.eqb f "__proto__"); [reflexivity|].
    now rewrite lookup_insert_ne by congruence. }
  unfold pushAction, push.
  destruct (getProperty (ensureArray f codeActions) f) as [[arr|key]|]; simpl;
    [now rewrite lookup_insert_ne by congruence | exact Hensure | exact Hensure].
Qed.

(** The completion and the new slot depend on the old slot only. *)
Lemma pushAction_local (f : string) (found : foundAction) (a b : filesCodeActions) :
  a !! f = b !! f ->
  fst (pushAction f found a) = fst (pushAction f found b)
  /\ snd (pushAction f found a) !! f = snd (pushAction f found b) !! f.
Proof.
  intros Hab.
  assert (Hget : getProperty a f = getProperty b f) by (unfold getProperty; now rewrite Hab).
  assert (Hensure : ensureArray f a !! f = ensureArray f b !! f).
  { unfold ensureArray, setProperty. rewrite Hget, Hab.
    destruct (b !! f) eqn:Hb; [now rewrite !lookup_insert_eq|].
    destruct (String.eqb f "__proto__"); [congruence | now rewrite !lookup_insert_eq]. }
  unfold pushAction, push.
  assert (Hget' : getProperty (ensureArray f a) f = getProperty (ensureArray f b) f)
    by (unfold getProperty; now rewrite Hensure).
  rewrite Hget'.
  destruct (getProperty (ensureArray f b) f) as [[arr|key]|]; simpl;
    [now rewrite !lookup_insert_eq | now split | now split].
Qed.

(** The two statements either append to the array of the file, or throw
    and leave that array as it is. *)
Lemma pushAction_entries (f : string) (found : foundAction) (codeActions : filesCodeActions) :
  (fst (pushAction f found codeActions) = Normal tt
   /\ entries (snd (pushAction f found codeActions)) f = entries codeActions f ++ [found])
  \/ ((exists e, fst (pushAction f found codeActions) = Throw e)
      /\ arraySlot codeActions f = false
      /\ arraySlot (snd (pushAction f found codeActions)) f = false
      /\ entries (snd (pushAction f found codeActions)) f = entries codeActions f).
Proof.
  destruct (arraySlot codeActions f) eqn:Hslot.
  - left. rewrite pushAction_arraySlot by assumption. split; [reflexivity|].
    apply appended_entries.
  - right. revert Hslot.
    unfold arraySlot, pushAction, ensureArray, getProperty, setProperty, push, entries.
    destruct (codeActions !! f) as [[arr|key]|] eqn:Hf; [discriminate | |].
    + intros _. simpl. unfold getProperty. rewrite lookup_insert_eq. simpl.
      rewrite lookup_insert_eq. repeat split. now eexists.
    + intros Hin%negb_false_iff. rewrite Hin. simpl.
      destruct (String.eqb f "__proto__").
      * unfold getProperty. rewrite Hf, Hin. simpl. rewrite ?Hf, ?Hin. simpl.
        repeat split. now eexists.
      * unfold getProperty. rewrite lookup_insert_eq. simpl. rewrite lookup_insert_eq.
        repeat split. now eexists.
Qed.

Lemma pushAll_lookup_ne (f g : string) (added : list foundAction)
    (codeActions : filesCodeActions) :
  g <> f -> pushAll f added codeActions !! g = codeActions !! g.
Proof.
  intros Hne. revert codeActions. induction added as [|found added IH]; intros codeActions.
  - reflexivity.
  - unfold pushAll in *. simpl. rewrite IH. now apply appended_lookup_ne.
Qed.

Lemma pushAll_entries (f : string) (added : list foundAction) (codeActions : filesCodeActions) :
  entries (pushAll f added codeActions) f = entries codeActions f ++ added.
Proof.
  revert codeActions. induction added as [|found added IH]; intros codeActions.
  - simpl. now rewrite app_nil_r.
  - unfold pushAll in *. simpl. rewrite IH, appended_entries. now rewrite <- app_assoc.
Qed.

Lemma pushAll_arraySlot (f : string) (added : list foundAction)
    (codeActions : filesCodeActions) :
  arraySlot codeActions f = true -> arraySlot (pushAll f added codeActions) f = true.
Proof.
  revert codeActions. induction added as [|found added IH]; intros codeActions Hslot.
  - exact Hslot.
  - unfold pushAll in *. simpl. apply IH, appended_arraySlot.
Qed.

Lemma pushAll_app (f : string) (a b : list foundAction) (codeActions : filesCodeActions) :
  pushAll f (a ++ b) codeActions = pushAll f b (pushAll f a codeActions).
Proof. unfold pushAll. apply foldl_app. Qed.

End Accumulator.

(** ** The outcome of each extractor *)

Section Outcomes.

Lemma zeroWidth_wrapRangeInText (r : Range) (a b : string) :
  Forall zeroWidth (wrapRangeInText r a b).
Proof.
  unfold wrapRangeInText.
  repeat apply List.Forall_cons; try apply List.Forall_nil; reflexivity.
Qed.

Lemma zeroWidth_insertBeforeEndingChar (r : Range) (text : string) :
  Forall zeroWidth (insertBeforeEndingChar r text).
Proof.
  unfold insertBeforeEndingChar.
  repeat apply List.Forall_cons; try apply List.Forall_nil; reflexivity.
Qed.

Ltac no_match :=
  exists NoMatch; split; [intros; reflexivity | split; [reflexivity | discriminate]].

Ltac found_with shape :=
  eexists (Found _ _);
  split; [intros; reflexivity
         | split; [intros; congruence | intros ? ? [= <- <-]; shape]].

Lemma simpleTypeMismatches_outcome : hasOutcome "This has type:" simpleTypeMismatches.
Proof.
  intros cfg. unfold simpleTypeMismatches.
  destruct (JS.startsWith (cfg_line cfg) "This has type:") eqn:Hs; [|no_match].
  destruct (mismatchTypes cfg) as [actual wanted].
  destruct (String.eqb actual _);
    [found_with ltac:(right; apply zeroWidth_wrapRangeInText)|].
  destruct (String.eqb _ wanted);
    [found_with ltac:(right; apply zeroWidth_wrapRangeInText) | no_match].
Qed.

Lemma didYouMeanAction_outcome : hasOutcome "Hint: Did you mean" didYouMeanAction.
Proof.
  intros cfg. unfold didYouMeanAction.
  destruct (JS.startsWith (cfg_line cfg) "Hint: Did you mean") eqn:Hs; [|no_match].
  destruct (Regex.didYouMean (cfg_line cfg)) as [[suggestion|]|]; [|no_match|no_match].
  found_with ltac:(left; eexists; reflexivity).
Qed.

Lemma addUndefinedRecordFields_outcome :
  hasOutcome "Some record fields are undefined:" addUndefinedRecordFields.
Proof.
  intros cfg. unfold addUndefinedRecordFields.
  destruct (JS.startsWith (cfg_line cfg) "Some record fields are undefined:") eqn:Hs;
    [|no_match].
  destruct (collectRecordFieldNames _ _) as [[names|]|e].
  - found_with ltac:(right; apply zeroWidth_insertBeforeEndingChar).
  - no_match.
  - exists (Threw e). split; [intros; reflexivity | split; [congruence | discriminate]].
Qed.

Lemma simpleConversion_outcome : hasOutcome "You can convert " simpleConversion.
Proof.
  intros cfg. unfold simpleConversion.
  destruct (JS.startsWith (cfg_line cfg) "You can convert ") eqn:Hs; [|no_match].
  destruct (Regex.conversion (cfg_line cfg)) as [[[from to] fn]|]; [|no_match].
  found_with ltac:(right; apply zeroWidth_wrapRangeInText).
Qed.

Lemma applyUncurried_outcome :
  hasOutcome "This is an uncurried ReScript function. It must be applied with a dot."
    applyUncurried.
Proof.
  intros cfg. unfold applyUncurried.
  destruct (JS.startsWith (cfg_line cfg) _) eqn:Hs; [|no_match].
  found_with ltac:(right; repeat apply List.Forall_cons; try apply List.Forall_nil; reflexivity).
Qed.

Lemma simpleAddMissingCases_outcome :
  hasOutcome "You forgot to handle a possible case here, for example:" simpleAddMissingCases.
Proof.
  intros cfg. unfold simpleAddMissingCases.
  destruct (JS.startsWith (cfg_line cfg) _) eqn:Hs; [|no_match].
  destruct (JS.includes (allCasesAsOneLine cfg) "("); [no_match|].
  destruct (length (missingCases (allCasesAsOneLine cfg)) =? 0)%nat; [no_match|].
  found_with ltac:(right; apply zeroWidth_insertBeforeEndingChar).
Qed.

Lemma registeredTriggers_outcome :
  Forall (fun te : string * codeActionExtractor => hasOutcome (fst te) (snd te))
         registeredTriggers.
Proof.
  unfold registeredTriggers.
  repeat apply List.Forall_cons; try apply List.Forall_nil; simpl;
    auto using simpleTypeMismatches_outcome, didYouMeanAction_outcome,
      addUndefinedRecordFields_outcome, simpleConversion_outcome,
      applyUncurried_outcome, simpleAddMissingCases_outcome.
Qed.

Lemma registeredTriggers_extractors : map snd registeredTriggers = codeActionEtractors.
Proof. reflexivity. Qed.

(** On a slot that is absent or holds an array, a found action is pushed. *)
Lemma complete_arraySlot cfg (o : outcome) (codeActions : filesCodeActions) :
  arraySlot codeActions (cfg_file cfg) = true ->
  complete cfg o codeActions
  = match o with
    | NoMatch => (Normal false, codeActions)
    | Threw e => (Throw e, codeActions)
    | Found ttl edits =>
        (Normal true, appended (cfg_file cfg) (quickFix cfg ttl edits) codeActions)
    end.
Proof.
  intros Hslot. destruct o; try reflexivity. simpl.
  now rewrite pushAction_arraySlot.
Qed.

Lemma complete_other cfg (o : outcome) (codeActions : filesCodeActions) (g : string) :
  g <> cfg_file cfg -> snd (complete cfg o codeActions) !! g = codeActions !! g.
Proof.
  intros Hne. destruct o as [|e|ttl edits]; try reflexivity. simpl.
  pose proof (pushAction_other (cfg_file cfg) g (quickFix cfg ttl edits) codeActions Hne)
    as Hother.
  destruct (pushAction _ _ _) as [[[]|e] ca']; simpl in *; exact Hother.
Qed.

Lemma complete_local cfg (o : outcome) (a b : filesCodeActions) :
  a !! cfg_file cfg = b !! cfg_file cfg ->
  fst (complete cfg o a) = fst (complete cfg o b)
  /\ snd (complete cfg o a) !! cfg_file cfg = snd (complete cfg o b) !! cfg_file cfg.
Proof.
  intros Hab. destruct o as [|e|ttl edits]; try (now split). simpl.
  destruct (pushAction_local (cfg_file cfg) (quickFix cfg ttl edits) a b Hab) as [Hfst Hsnd].
  destruct (pushAction _ _ a) as [[[]|ea] a'], (pushAction _ _ b) as [[[]|eb] b'];
    simpl in *; try discriminate; split; congruence.
Qed.

(** A call adds at most one action to the array of the file. *)
Lemma complete_entries cfg (o : outcome) (codeActions : filesCodeActions) :
  (fst (complete cfg o codeActions) <> Normal true
   /\ entries (snd (complete cfg o codeActions)) (cfg_file cfg)
      = entries codeActions (cfg_file cfg))
  \/ (fst (complete cfg o codeActions) = Normal true
      /\ exists found,
           entries (snd (complete cfg o codeActions)) (cfg_file cfg)
           = entries codeActions (cfg_file cfg) ++ [found]).
Proof.
  destruct o as [|e|ttl edits]; try (left; split; [discriminate | reflexivity]). simpl.
  destruct (pushAction_entries (cfg_file cfg) (quickFix cfg ttl edits) codeActions)
    as [[Hok Hentries] | [[e He] (_ & _ & Hentries)]];
    destruct (pushAction _ _ _) as [[[]|e'] ca']; simpl in *; try discriminate.
  - right. split; [reflexivity | eexists; exact Hentries].
  - left. split; [discriminate | assumption].
Qed.

End Outcomes.

(** ** The loops of the dispatcher *)

Section Dispatcher.

Lemma forExtractors_normal extractors cfg w :
  exists w', forExtractors extractors cfg w = (Normal tt, w').
Proof.
  revert w. induction extractors as [|ex rest IH]; intros w; simpl.
  - now eexists.
  - destruct (tryExtract ex cfg w) as [[] w1]; [now eexists | apply IH].
Qed.

Lemma forEach_from_normal (extractors : string -> nat -> list string -> list codeActionExtractor)
    (mk : string -> nat -> list string -> codeActionExtractorConfig)
    array index remaining w :
  exists w',
    forEach_from (fun l i arr => forExtractors (extractors l i arr) (mk l i arr))
      array index remaining w = (Normal tt, w').
Proof.
  revert index w. induction remaining as [|l rest IH]; intros index w; simpl.
  - now eexists.
  - destruct (forExtractors_normal (extractors l index array) (mk l index array) w)
      as [w1 ->].
    apply IH.
Qed.

(** The loop over the extractors invokes a prefix of its list, in order,
    and stops at the first match. *)
Lemma forExtractors_tried extractors cfg w :
  exists tried notTried found w',
    extractors = tried ++ notTried
    /\ triedInOrder cfg w tried found w'
    /\ forExtractors extractors cfg w = (Normal tt, w')
    /\ (found = false -> notTried = []).
Proof.
  revert w. induction extractors as [|ex rest IH]; intros w.
  - exists [], [], false, w. repeat split. constructor.
  - simpl. destruct (tryExtract ex cfg w) as [[] w1] eqn:Htry.
    + exists [ex], rest, true, w1. repeat split; [now constructor | discriminate].
    + destruct (IH w1) as (tried & notTried & found & w' & -> & Htried & Hrun & Hall).
      exists (ex :: tried), notTried, found, w'. repeat split; try assumption.
      econstructor; eassumption.
Qed.

Lemma forEach_from_cons {A} (callback : A -> nat -> list A -> world -> completion unit * world)
    (array : list A) (index : nat) (x : A) (rest : list A) (w : world) :
  forEach_from callback array index (x :: rest) w
  = match callback x index array w with
    | (Normal _, w') => forEach_from callback array (S index) rest w'
    | (Throw e, w') => (Throw e, w')
    end.
Proof. reflexivity. Qed.

(** One step of the loop over the extractors, by what the extractor did. *)
Lemma forExtractors_cons_match ex rest cfg codeActions log codeActions' :
  ex cfg codeActions = (Normal true, codeActions') ->
  forExtractors (ex :: rest) cfg (codeActions, log) = (Normal tt, (codeActions', log)).
Proof. intros Hex. simpl. unfold tryExtract. simpl. now rewrite Hex. Qed.

Lemma forExtractors_cons_no_match ex rest cfg codeActions log codeActions' :
  ex cfg codeActions = (Normal false, codeActions') ->
  forExtractors (ex :: rest) cfg (codeActions, log)
  = forExtractors rest cfg (codeActions', log).
Proof. intros Hex. simpl. unfold tryExtract. simpl. now rewrite Hex. Qed.

Lemma forExtractors_cons_throw ex rest cfg codeActions log e codeActions' :
  ex cfg codeActions = (Throw e, codeActions') ->
  forExtractors (ex :: rest) cfg (codeActions, log)
  = forExtractors rest cfg (codeActions', log ++ [e]).
Proof. intros Hex. simpl. unfold tryExtract. simpl. now rewrite Hex. Qed.

(** The lines of a message are processed one after the other, whatever
    happened on the lines before. *)
Lemma forEach_from_app extractors (mk : string -> nat -> list string -> _)
    (array : list string) (index : nat) (before after : list string) (w : world) :
  forEach_from (fun l i arr => forExtractors extractors (mk l i arr))
    array index (before ++ after) w
  = forEach_from (fun l i arr => forExtractors extractors (mk l i arr))
      array (index + length before) after
      (snd (forEach_from (fun l i arr => forExtractors extractors (mk l i arr))
              array index before w)).
Proof.
  revert index w. induction before as [|l before IH]; intros index w.
  - simpl. now rewrite Nat.add_0_r.
  - change ((l :: before) ++ after) with (l :: (before ++ after)).
    rewrite !forEach_from_cons.
    destruct (forExtractors_normal extractors (mk l index array) w) as [w1 ->].
    rewrite IH. simpl length. now rewrite Nat.add_succ_r.
Qed.

End Dispatcher.

(** ** What a pass does to the accumulator *)

Section Contribution.

(** One line, on a slot that is absent or holds an array: the loop over
    extractors with outcomes adds at most one action and some log entries,
    the same for every such accumulator. *)
Lemma forExtractors_contribution (registered : list (string * codeActionExtractor))
    (cfg : codeActionExtractorConfig) :
  Forall (fun te => hasOutcome (fst te) (snd te)) registered ->
  exists (added : list foundAction) (errors : list exn),
    (forall codeActions log,
        arraySlot codeActions (cfg_file cfg) = true ->
        forExtractors (map snd registered) cfg (codeActions, log)
        = (Normal tt, (pushAll (cfg_file cfg) added codeActions, log ++ errors)))
    /\ (length added <= 1)%nat
    /\ Forall (fun found => exists ttl edits,
                   found = quickFix cfg ttl edits
                   /\ replacesOrInserts (cfg_range cfg) edits) added
    /\ (Forall (fun te => JS.startsWith (cfg_line cfg) (fst te) = false) registered ->
        added = [] /\ errors = []).
Proof.
  induction 1 as [|[trigger ex] rest Hex _ IH].
  - exists [], []. split_and!; auto. intros. simpl. now rewrite app_nil_r.
  - destruct IH as (added & errors & Hrun & Hlen & Hshape & Hnone).
    destruct (Hex cfg) as (o & Ho & Hoff & Hedits). simpl in Ho, Hoff.
    destruct o as [|e|ttl edits].
    + exists added, errors. split_and!; try assumption.
      * intros codeActions log Hslot. simpl map.
        rewrite (forExtractors_cons_no_match _ _ _ _ _ codeActions) by apply Ho.
        now apply Hrun.
      * intros Hall. apply Hnone. now inversion Hall.
    + exists added, (e :: errors). split_and!; try assumption.
      * intros codeActions log Hslot. simpl map.
        rewrite (forExtractors_cons_throw _ _ _ _ _ e codeActions) by apply Ho.
        rewrite Hrun by assumption. now rewrite <- app_assoc.
      * intros Hall. inversion Hall as [|? ? Hoff' ?]; subst.
        specialize (Hoff Hoff'). discriminate.
    + exists [quickFix cfg ttl edits], []. split_and!.
      * intros codeActions log Hslot. simpl map.
        rewrite (forExtractors_cons_match _ _ _ _ _
                   (appended (cfg_file cfg) (quickFix cfg ttl edits) codeActions))
          by (rewrite Ho; now apply (complete_arraySlot cfg (Found ttl edits))).
        now rewrite app_nil_r.
      * simpl. lia.
      * constructor; [|constructor]. exists ttl, edits. split; [reflexivity|]. now eapply Hedits.
      * intros Hall. inversion Hall as [|? ? Hoff' ?]; subst.
        specialize (Hoff Hoff'). discriminate.
Qed.

(** The whole message. *)
Lemma forEach_contribution (cfg : findCodeActionsConfig) (array : list string)
    (index : nat) (remaining : list string) :
  exists (added : list foundAction) (errors : list exn),
    (forall codeActions log,
        arraySlot codeActions (file cfg) = true ->
        forEach_from
          (fun l i arr => forExtractors codeActionEtractors (extractorConfig cfg l i arr))
          array index remaining (codeActions, log)
        = (Normal tt, (pushAll (file cfg) added codeActions, log ++ errors)))
    /\ (length added <= length remaining)%nat
    /\ Forall (actionShape cfg) added
    /\ (Forall noTrigger remaining -> added = [] /\ errors = []).
Proof.
  revert index. induction remaining as [|l rest IH]; intros index.
  - exists [], []. split_and!; auto. intros. simpl. now rewrite app_nil_r.
  - destruct (IH (S index)) as (added & errors & Hrun & Hlen & Hshape & Hnone).
    destruct (forExtractors_contribution registeredTriggers
                (extractorConfig cfg l index array) registeredTriggers_outcome)
      as (added1 & errors1 & Hrun1 & Hlen1 & Hshape1 & Hnone1).
    exists (added1 ++ added), (errors1 ++ errors). split_and!.
    + intros codeActions log Hslot. rewrite forEach_from_cons.
      change (map snd registeredTriggers) with codeActionEtractors in Hrun1.
      rewrite Hrun1 by exact Hslot.
      rewrite Hrun by (now apply pushAll_arraySlot).
      now rewrite pushAll_app, app_assoc.
    + rewrite length_app. simpl. lia.
    + apply Forall_app. split; [|assumption].
      eapply Forall_impl; [exact Hshape1|].
      intros found (ttl & edits & -> & Hedits). now exists ttl, edits.
    + intros Hall. inversion Hall as [|? ? Hl Hrest]; subst.
      destruct (Hnone1 Hl) as [-> ->]. destruct (Hnone Hrest) as [-> ->]. now split.
Qed.

(** Whatever the accumulator holds, a pass touches the slot of its file only,
    and what it does there depends on that slot only. *)
Lemma forExtractors_other (registered : list (string * codeActionExtractor))
    (cfg : codeActionExtractorConfig) (g : string) :
  Forall (fun te => hasOutcome (fst te) (snd te)) registered ->
  g <> cfg_file cfg ->
  forall codeActions log,
    fst (snd (forExtractors (map snd registered) cfg (codeActions, log))) !! g
    = codeActions !! g.
Proof.
  intros Hall Hne. induction Hall as [|[trigger ex] rest Hex _ IH]; intros codeActions log.
  - reflexivity.
  - destruct (Hex cfg) as (o & Ho & _). simpl in Ho. simpl map.
    pose proof (complete_other cfg o codeActions g Hne) as Hother.
    destruct (complete cfg o codeActions) as [[[]|e] ca1] eqn:E; simpl in Hother.
    + rewrite (forExtractors_cons_match _ _ _ _ _ ca1) by (now rewrite Ho). exact Hother.
    + rewrite (forExtractors_cons_no_match _ _ _ _ _ ca1) by (now rewrite Ho).
      now rewrite IH.
    + rewrite (forExtractors_cons_throw _ _ _ _ _ e ca1) by (now rewrite Ho).
      now rewrite IH.
Qed.

Lemma forExtractors_local (registered : list (string * codeActionExtractor))
    (cfg : codeActionExtractorConfig) :
  Forall (fun te => hasOutcome (fst te) (snd te)) registered ->
  forall a b logA logB,
    a !! cfg_file cfg = b !! cfg_file cfg ->
    fst (snd (forExtractors (map snd registered) cfg (a, logA))) !! cfg_file cfg
    = fst (snd (forExtractors (map snd registered) cfg (b, logB))) !! cfg_file cfg.
Proof.
  intros Hall. induction Hall as [|[trigger ex] rest Hex _ IH]; intros a b logA logB Hab.
  - exact Hab.
  - destruct (Hex cfg) as (o & Ho & _). simpl in Ho. simpl map.
    destruct (complete_local cfg o a b Hab) as [Hfst Hsnd].
    destruct (complete cfg o a) as [[[]|ea] a1] eqn:Ea,
             (complete cfg o b) as [[[]|eb] b1] eqn:Eb; simpl in Hfst, Hsnd; try discriminate.
    + rewrite (forExtractors_cons_match _ _ _ _ _ a1) by (now rewrite Ho).
      rewrite (forExtractors_cons_match _ _ _ _ _ b1) by (now rewrite Ho). exact Hsnd.
    + rewrite (forExtractors_cons_no_match _ _ _ _ _ a1) by (now rewrite Ho).
      rewrite (forExtractors_cons_no_match _ _ _ _ _ b1) by (now rewrite Ho).
      now apply IH.
    + rewrite (forExtractors_cons_throw _ _ _ _ _ ea a1) by (now rewrite Ho).
      rewrite (forExtractors_cons_throw _ _ _ _ _ eb b1) by (now rewrite Ho).
      now apply IH.
Qed.

Lemma forEach_other (cfg : findCodeActionsConfig) (array : list string) (g : string)
    (index : nat) (remaining : list string) :
  g <> file cfg ->
  forall codeActions log,
    fst (snd (forEach_from
                (fun l i arr => forExtractors codeActionEtractors (extractorConfig cfg l i arr))
                array index remaining (codeActions, log))) !! g
    = codeActions !! g.
Proof.
  intros Hne. revert index. induction remaining as [|l rest IH]; intros index codeActions log.
  - reflexivity.
  - rewrite forEach_from_cons.
    pose proof (forExtractors_other registeredTriggers (extractorConfig cfg l index array) g
                  registeredTriggers_outcome Hne codeActions log) as Hline.
    change (map snd registeredTriggers) with codeActionEtractors in Hline.
    destruct (forExtractors_normal codeActionEtractors (extractorConfig cfg l index array)
                (codeActions, log)) as [[ca1 log1] E].
    rewrite E in *. simpl in Hline. now rewrite IH.
Qed.

Lemma forEach_local (cfg : findCodeActionsConfig) (array : list string)
    (index : nat) (remaining : list string) :
  forall a b logA logB,
    a !! file cfg = b !! file cfg ->
    fst (snd (forEach_from
                (fun l i arr => forExtractors codeActionEtractors (extractorConfig cfg l i arr))
                array index remaining (a, logA))) !! file cfg
    = fst (snd (forEach_from
                  (fun l i arr => forExtractors codeActionEtractors (extractorConfig cfg l i arr))
                  array index remaining (b, logB))) !! file cfg.
Proof.
  revert index. induction remaining as [|l rest IH]; intros index a b logA logB Hab.
  - exact Hab.
  - rewrite !forEach_from_cons.
    pose proof (forExtractors_local registeredTriggers (extractorConfig cfg l index array)
                  registeredTriggers_outcome a b logA logB Hab) as Hline.
    change (map snd registeredTriggers) with codeActionEtractors in Hline.
    destruct (forExtractors_normal codeActionEtractors (extractorConfig cfg l index array)
                (a, logA)) as [[a1 logA1] Ea].
    destruct (forExtractors_normal codeActionEtractors (extractorConfig cfg l index array)
                (b, logB)) as [[b1 logB1] Eb].
    rewrite Ea, Eb in *. simpl in Hline. now apply IH.
Qed.

(** The array of the file after one line: as before, or one action longer. *)
Lemma forExtractors_entries (registered : list (string * codeActionExtractor))
    (cfg : codeActionExtractorConfig) :
  Forall (fun te => hasOutcome (fst te) (snd te)) registered ->
  forall codeActions log,
    let codeActions' := fst (snd (forExtractors (map snd registered) cfg (codeActions, log))) in
    entries codeActions' (cfg_file cfg) = entries codeActions (cfg_file cfg)
    \/ exists found,
         entries codeActions' (cfg_file cfg) = entries codeActions (cfg_file cfg) ++ [found].
Proof.
  intros Hall. induction Hall as [|[trigger ex] rest Hex _ IH]; intros codeActions log.
  - now left.
  - destruct (Hex cfg) as (o & Ho & _). simpl in Ho. cbv zeta. simpl map.
    destruct (complete_entries cfg o codeActions) as [[Hno Hsame] | [Hyes [found Hmore]]];
      destruct (complete cfg o codeActions) as [[[]|e] ca1] eqn:E;
      cbn [fst snd] in *; try congruence.
    + rewrite (forExtractors_cons_no_match _ _ _ _ _ ca1) by (now rewrite Ho).
      rewrite <- Hsame. apply IH.
    + rewrite (forExtractors_cons_throw _ _ _ _ _ e ca1) by (now rewrite Ho).
      rewrite <- Hsame. apply IH.
    + rewrite (forExtractors_cons_match _ _ _ _ _ ca1) by (now rewrite Ho).
      right. now exists found.
Qed.

End Contribution.

(** ** The order of the extractors *)

Section Order.

(** Two prefixes of one string are comparable. *)
Lemma prefix_comparable (l p q : string) :
  String.prefix p l = true -> String.prefix q l = true ->
  String.prefix p q = true \/ String.prefix q p = true.
Proof.
  revert p q. induction l as [|c l IH]; intros [|a p] [|b q] Hp Hq;
    try (left; apply prefix_empty); try (right; apply prefix_empty); try discriminate.
  simpl in Hp, Hq.
  destruct (ascii_dec a c) as [->|]; [|discriminate].
  destruct (ascii_dec b c) as [->|]; [|discriminate].
  simpl. destruct (ascii_dec c c); [|congruence]. now apply IH.
Qed.

Lemma incomparable_triggers_exclude (l p q : string) :
  String.prefix p q = false -> String.prefix q p = false ->
  JS.startsWith l p = true -> JS.startsWith l q = false.
Proof.
  intros Hpq Hqp Hp. destruct (JS.startsWith l q) eqn:Hq; [|reflexivity].
  destruct (prefix_comparable l p q Hp Hq); congruence.
Qed.

Lemma registeredTriggers_incomparable : ForallOrdPairs incomparable registeredTriggers.
Proof.
  unfold registeredTriggers.
  repeat (apply FOP_cons || apply FOP_nil || apply List.Forall_cons || apply List.Forall_nil);
    split; reflexivity.
Qed.

Lemma forExtractors_quiet (extractors : list codeActionExtractor) cfg (w : world) :
  Forall (quiet cfg) extractors -> forExtractors extractors cfg w = (Normal tt, w).
Proof.
  induction 1 as [|ex rest Hex _ IH]; [reflexivity|].
  simpl. unfold tryExtract. rewrite Hex. destruct w. exact IH.
Qed.

(** Among quiet extractors, only the one that is not quiet counts. *)
Lemma forExtractors_single (before after : list codeActionExtractor)
    (ex : codeActionExtractor) cfg (o : outcome) (w : world) :
  Forall (quiet cfg) before -> Forall (quiet cfg) after ->
  (forall codeActions, ex cfg codeActions = complete cfg o codeActions) ->
  forExtractors (before ++ ex :: after) cfg w = (Normal tt, snd (tryExtract ex cfg w)).
Proof.
  intros Hbefore Hafter Ho. induction Hbefore as [|x before Hx _ IH].
  - simpl. unfold tryExtract. rewrite Ho.
    destruct (complete cfg o (fst w)) as [[[]|e] ca1]; simpl; try reflexivity;
      now apply forExtractors_quiet.
  - simpl. unfold tryExtract at 1. rewrite Hx. destruct w. exact IH.
Qed.

(** Off every trigger, every registered extractor is quiet. *)
Lemma registered_quiet_off_trigger (cfg : codeActionExtractorConfig) :
  noTrigger (cfg_line cfg) -> Forall (quiet cfg) codeActionEtractors.
Proof.
  intros Hnone. change codeActionEtractors with (map snd registeredTriggers).
  unfold noTrigger in Hnone. pose proof registeredTriggers_outcome as Hout.
  induction Hout as [|[t ex] rest Hex _ IH]; [constructor|].
  apply Forall_cons in Hnone as [Ht Hnone]. simpl in *.
  constructor; [|now apply IH].
  destruct (Hex cfg) as (o & Ho & Hoff & _). rewrite (Hoff Ht) in Ho. exact Ho.
Qed.

(** On any line, all registered extractors are quiet, or all but one. *)
Lemma at_most_one_extractor_reacts (registered : list (string * codeActionExtractor)) cfg :
  Forall (fun te => hasOutcome (fst te) (snd te)) registered ->
  ForallOrdPairs incomparable registered ->
  Forall (quiet cfg) (map snd registered)
  \/ exists before ex after o,
       map snd registered = before ++ ex :: after
       /\ Forall (quiet cfg) (before ++ after)
       /\ (forall codeActions, ex cfg codeActions = complete cfg o codeActions).
Proof.
  intros Hout Hpairs. induction Hpairs as [|[t ex] rest Hhead _ IH].
  - left. constructor.
  - apply Forall_cons in Hout as [Hex Hrest]. simpl in Hex.
    destruct (Hex cfg) as (o & Ho & Hoff & _).
    destruct (JS.startsWith (cfg_line cfg) t) eqn:Ht.
    + right. exists [], ex, (map snd rest), o. split; [reflexivity|]. split; [|exact Ho].
      simpl. clear IH. induction rest as [|[t' ex'] rest IHrest]; [constructor|].
      apply Forall_cons in Hhead as [[Hab Hba] Hhead].
      apply Forall_cons in Hrest as [Hex' Hrest]. simpl in *.
      constructor; [|now apply IHrest].
      destruct (Hex' cfg) as (o' & Ho' & Hoff' & _).
      rewrite (Hoff' (incomparable_triggers_exclude _ _ _ Hab Hba Ht)) in Ho'. exact Ho'.
    + assert (Hquiet : quiet cfg ex) by (rewrite (Hoff eq_refl) in Ho; exact Ho).
      destruct (IH Hrest) as [Hall | (before & ex' & after & o' & Heq & Hothers & Ho')].
      * left. simpl. now constructor.
      * right. exists (ex :: before), ex', after, o'. simpl. rewrite Heq.
        split; [reflexivity|]. split; [now constructor | exact Ho'].
Qed.

End Order.

(** ** Exceptions and the log *)

Section Exceptions.

Ltac never_throws :=
  intros cfg codeActions e codeActions' Hslot;
  repeat case_match; try discriminate;
  rewrite pushAction_arraySlot by assumption; discriminate.

Lemma simpleTypeMismatches_never_throws cfg codeActions e codeActions' :
  arraySlot codeActions (cfg_file cfg) = true ->
  simpleTypeMismatches cfg codeActions <> (Throw e, codeActions').
Proof. revert cfg codeActions e codeActions'. unfold simpleTypeMismatches. never_throws. Qed.

Lemma didYouMeanAction_never_throws cfg codeActions e codeActions' :
  arraySlot codeActions (cfg_file cfg) = true ->
  didYouMeanAction cfg codeActions <> (Throw e, codeActions').
Proof. revert cfg codeActions e codeActions'. unfold didYouMeanAction. never_throws. Qed.

Lemma simpleConversion_never_throws cfg codeActions e codeActions' :
  arraySlot codeActions (cfg_file cfg) = true ->
  simpleConversion cfg codeActions <> (Throw e, codeActions').
Proof. revert cfg codeActions e codeActions'. unfold simpleConversion. never_throws. Qed.

Lemma applyUncurried_never_throws cfg codeActions e codeActions' :
  arraySlot codeActions (cfg_file cfg) = true ->
  applyUncurried cfg codeActions <> (Throw e, codeActions').
Proof. revert cfg codeActions e codeActions'. unfold applyUncurried. never_throws. Qed.

Lemma simpleAddMissingCases_never_throws cfg codeActions e codeActions' :
  arraySlot codeActions (cfg_file cfg) = true ->
  simpleAddMissingCases cfg codeActions <> (Throw e, codeActions').
Proof. revert cfg codeActions e codeActions'. unfold simpleAddMissingCases. never_throws. Qed.

Lemma quiet_never_throws cfg (ex : codeActionExtractor) codeActions e codeActions' :
  quiet cfg ex -> ex cfg codeActions <> (Throw e, codeActions').
Proof. intros Hq. rewrite Hq. discriminate. Qed.

Lemma arraySlice_nil_iff {A} (array : list A) (n : nat) :
  JS.arraySlice array n = [] <-> (length array <= n)%nat.
Proof.
  unfold JS.arraySlice. split.
  - intros Hnil. pose proof (length_skipn n array) as Hlen. rewrite Hnil in Hlen.
    simpl in Hlen. lia.
  - apply skipn_all2.
Qed.

(** The log after the record-fields extractor, on a line with its trigger. *)
Lemma addUndefinedRecordFields_log cfg codeActions log :
  arraySlot codeActions (cfg_file cfg) = true ->
  JS.startsWith (cfg_line cfg) "Some record fields are undefined:" = true ->
  snd (snd (tryExtract addUndefinedRecordFields cfg (codeActions, log)))
  = log ++ (if throwsOnLine (cfg_array cfg) (cfg_index cfg) (cfg_line cfg)
            then [recordFieldsError] else []).
Proof.
  intros Hslot Hstart. unfold tryExtract, addUndefinedRecordFields, throwsOnLine. simpl fst.
  rewrite Hstart. unfold collectRecordFieldNames.
  destruct (firstRecordFieldNames (cfg_line cfg)) as [names|].
  - rewrite pushAction_arraySlot by assumption. simpl. now rewrite app_nil_r.
  - destruct (JS.arraySlice (cfg_array cfg) (cfg_index cfg + 1)) as [|l following] eqn:Hfollowing.
    + apply arraySlice_nil_iff in Hfollowing.
      assert (Hlast : (cfg_index cfg + 1 <? length (cfg_array cfg))%nat = false)
        by (apply Nat.ltb_ge; lia).
      rewrite Hlast. simpl. now rewrite app_nil_r.
    + assert (Hmore : (cfg_index cfg + 1 <? length (cfg_array cfg))%nat = true).
      { apply Nat.ltb_lt.
        destruct (Nat.le_gt_cases (length (cfg_array cfg)) (cfg_index cfg + 1)) as [Hle|Hgt];
          [|exact Hgt].
        apply arraySlice_nil_iff in Hle. congruence. }
      rewrite Hmore. reflexivity.
Qed.

(** Extractors that have outcomes and do not throw leave the log alone. *)
Lemma forExtractors_log_unchanged (registered : list (string * codeActionExtractor)) cfg :
  Forall (fun te => hasOutcome (fst te) (snd te)) registered ->
  Forall (fun te : string * codeActionExtractor =>
            forall codeActions e codeActions',
              arraySlot codeActions (cfg_file cfg) = true ->
              snd te cfg codeActions <> (Throw e, codeActions')) registered ->
  forall codeActions log,
    arraySlot codeActions (cfg_file cfg) = true ->
    snd (snd (forExtractors (map snd registered) cfg (codeActions, log))) = log.
Proof.
  intros Hout Hsafe. induction Hout as [|[t ex] rest Hex _ IH]; intros codeActions log Hslot.
  - reflexivity.
  - apply Forall_cons in Hsafe as [Hsafe1 Hsafe]. simpl in Hsafe1.
    destruct (Hex cfg) as (o & Ho & _). simpl in Ho. simpl map.
    pose proof (Ho codeActions) as Hcall.
    rewrite (complete_arraySlot cfg o codeActions Hslot) in Hcall.
    destruct o as [|e|ttl edits].
    + rewrite (forExtractors_cons_no_match _ _ _ _ _ codeActions) by exact Hcall.
      now apply IH.
    + now apply Hsafe1 in Hcall.
    + now rewrite (forExtractors_cons_match _ _ _ _ _ _ Hcall).
Qed.

Lemma off_trigger_quiet (trigger : string) (ex : codeActionExtractor) cfg :
  hasOutcome trigger ex -> JS.startsWith (cfg_line cfg) trigger = false -> quiet cfg ex.
Proof.
  intros Hex Hoff. destruct (Hex cfg) as (o & Ho & Hno & _).
  rewrite (Hno Hoff) in Ho. exact Ho.
Qed.

(** The log after one line, on a slot that is absent or holds an array. *)
Lemma forExtractors_log cfg codeActions log :
  arraySlot codeActions (cfg_file cfg) = true ->
  snd (snd (forExtractors codeActionEtractors cfg (codeActions, log)))
  = log ++ (if throwsOnLine (cfg_array cfg) (cfg_index cfg) (cfg_line cfg)
            then [recordFieldsError] else []).
Proof.
  intros Hslot.
  destruct (JS.startsWith (cfg_line cfg) "Some record fields are undefined:") eqn:Hstart.
  - change codeActionEtractors
      with ([simpleTypeMismatches; didYouMeanAction]
              ++ addUndefinedRecordFields :: [simpleConversion; applyUncurried;
                                              simpleAddMissingCases]).
    destruct (addUndefinedRecordFields_outcome cfg) as (o & Ho & _).
    rewrite (forExtractors_single _ _ _ cfg o).
    + now apply addUndefinedRecordFields_log.
    + repeat (apply List.Forall_cons || apply List.Forall_nil);
        [ apply (off_trigger_quiet _ _ cfg simpleTypeMismatches_outcome)
        | apply (off_trigger_quiet _ _ cfg didYouMeanAction_outcome) ];
        (eapply incomparable_triggers_exclude; [ | | exact Hstart]; reflexivity).
    + repeat (apply List.Forall_cons || apply List.Forall_nil);
        [ apply (off_trigger_quiet _ _ cfg simpleConversion_outcome)
        | apply (off_trigger_quiet _ _ cfg applyUncurried_outcome)
        | apply (off_trigger_quiet _ _ cfg simpleAddMissingCases_outcome) ];
        (eapply incomparable_triggers_exclude; [ | | exact Hstart]; reflexivity).
    + exact Ho.
  - unfold throwsOnLine. rewrite Hstart. cbn [andb]. rewrite app_nil_r.
    change codeActionEtractors with (map snd registeredTriggers).
    apply forExtractors_log_unchanged; [apply registeredTriggers_outcome | | exact Hslot].
    unfold registeredTriggers.
    repeat (apply List.Forall_cons || apply List.Forall_nil); simpl;
      intros ca e ca' Hca.
    + now apply simpleTypeMismatches_never_throws.
    + now apply didYouMeanAction_never_throws.
    + apply quiet_never_throws.
      now apply (off_trigger_quiet _ _ cfg addUndefinedRecordFields_outcome).
    + now apply simpleConversion_never_throws.
    + now apply applyUncurried_never_throws.
    + now apply simpleAddMissingCases_never_throws.
Qed.

(** The log after the lines [remaining]. *)
Lemma forEach_log (cfg : findCodeActionsConfig) (array : list string)
    (index : nat) (remaining : list string) :
  forall codeActions log,
    arraySlot codeActions (file cfg) = true ->
    snd (snd (forEach_from
                (fun l i arr => forExtractors codeActionEtractors (extractorConfig cfg l i arr))
                array index remaining (codeActions, log)))
    = log ++ errorsFrom array index remaining.
Proof.
  revert index. induction remaining as [|l rest IH]; intros index codeActions log Hslot.
  - simpl. now rewrite app_nil_r.
  - rewrite forEach_from_cons.
    destruct (forExtractors_contribution registeredTriggers
                (extractorConfig cfg l index array) registeredTriggers_outcome)
      as (added1 & errors1 & Hrun1 & _).
    change (map snd registeredTriggers) with codeActionEtractors in Hrun1.
    pose proof (forExtractors_log (extractorConfig cfg l index array) codeActions log Hslot)
      as Hlog.
    rewrite (Hrun1 codeActions log Hslot) in Hlog |- *. simpl in Hlog.
    rewrite Hlog, IH by (now apply pushAll_arraySlot).
    simpl errorsFrom. now rewrite app_assoc.
Qed.

(** Replacing every throw by a no-match return gives the same accumulator,
    on a slot that is absent or holds an array. *)
Lemma forExtractors_asNoMatch (registered : list (string * codeActionExtractor)) cfg :
  Forall (fun te => hasOutcome (fst te) (snd te)) registered ->
  forall codeActions log1 log2,
    arraySlot codeActions (cfg_file cfg) = true ->
    fst (snd (forExtractors (map snd registered) cfg (codeActions, log1)))
    = fst (snd (forExtractors (map asNoMatch (map snd registered)) cfg (codeActions, log2))).
Proof.
  intros Hout. induction Hout as [|[t ex] rest Hex _ IH]; intros codeActions log1 log2 Hslot.
  - reflexivity.
  - destruct (Hex cfg) as (o & Ho & _). simpl in Ho. simpl map.
    pose proof (Ho codeActions) as Hcall.
    rewrite (complete_arraySlot cfg o codeActions Hslot) in Hcall.
    destruct o as [|e|ttl edits].
    + rewrite (forExtractors_cons_no_match _ _ _ _ _ codeActions) by exact Hcall.
      rewrite (forExtractors_cons_no_match _ _ _ _ _ codeActions)
        by (unfold asNoMatch; now rewrite Hcall).
      now apply IH.
    + rewrite (forExtractors_cons_throw _ _ _ _ _ e codeActions) by exact Hcall.
      rewrite (forExtractors_cons_no_match _ _ _ _ _ codeActions)
        by (unfold asNoMatch; now rewrite Hcall).
      now apply IH.
    + rewrite (forExtractors_cons_match _ _ _ _ _ _ Hcall).
      rewrite (forExtractors_cons_match _ _ _ _ _
                 (appended (cfg_file cfg) (quickFix cfg ttl edits) codeActions))
        by (unfold asNoMatch; now rewrite Hcall).
      reflexivity.
Qed.

Lemma forEach_asNoMatch (cfg : findCodeActionsConfig) (array : list string)
    (index : nat) (remaining : list string) :
  forall codeActions log1 log2,
    arraySlot codeActions (file cfg) = true ->
    fst (snd (forEach_from
                (fun l i arr => forExtractors codeActionEtractors (extractorConfig cfg l i arr))
                array index remaining (codeActions, log1)))
    = fst (snd (forEach_from
                  (fun l i arr =>
                     forExtractors (map asNoMatch codeActionEtractors)
                       (extractorConfig cfg l i arr))
                  array index remaining (codeActions, log2))).
Proof.
  revert index. induction remaining as [|l rest IH]; intros index codeActions log1 log2 Hslot.
  - reflexivity.
  - rewrite !forEach_from_cons.
    destruct (forExtractors_contribution registeredTriggers
                (extractorConfig cfg l index array) registeredTriggers_outcome)
      as (added1 & errors1 & Hrun1 & _).
    pose proof (forExtractors_asNoMatch registeredTriggers (extractorConfig cfg l index array)
                  registeredTriggers_outcome codeActions log1 log2 Hslot) as Hline.
    change (map snd registeredTriggers) with codeActionEtractors in Hrun1, Hline.
    destruct (forExtractors_normal (map asNoMatch codeActionEtractors)
                (extractorConfig cfg l index array) (codeActions, log2)) as [[ca2 log2'] E2].
    rewrite (Hrun1 codeActions log1 Hslot), E2 in Hline |- *.
    cbn [fst snd] in Hline. subst ca2.
    apply IH. now apply pushAll_arraySlot.
Qed.

End Exceptions.

(** ** The dispatcher: one action per diagnostic, order, exceptions *)

(** C1. The source announces one action per diagnostic ("halt whenever a code
    action has been found"), but its [break] only leaves the loop over the
    extractors of the current line. On a message with two trigger lines the
    dispatcher pushes two actions for the same diagnostic. *)
Theorem two_trigger_lines_give_two_actions :
  let cfg := sampleConfig
               [ "Hint: Did you mean foo";
                 "You can convert int to float with Belt.Int.toFloat." ] sampleRange in
  exists first second log,
    findCodeActionsInDiagnosticsMessage cfg (∅, [])
    = (Normal tt, ({[ file cfg := Entries [first; second] ]}, log))
    /\ title (codeAction first) = "Replace with 'foo'"
    /\ title (codeAction second) = "Convert int to float with Belt.Int.toFloat"
    /\ diagnostics (codeAction first) = [diagnostic cfg]
    /\ diagnostics (codeAction second) = [diagnostic cfg].
Proof.
  do 3 eexists. split; [vm_compute; reflexivity|]. repeat split.
Qed.

(** Within one line the announced discipline does hold: the loop over the
    extractors adds at most one action to the array of the file. *)
Lemma one_line_gives_at_most_one_action cfg (w : world) :
  let codeActions' := fst (snd (forExtractors codeActionEtractors cfg w)) in
  entries codeActions' (cfg_file cfg) = entries (fst w) (cfg_file cfg)
  \/ exists found,
       entries codeActions' (cfg_file cfg) = entries (fst w) (cfg_file cfg) ++ [found].
Proof.
  destruct w as [codeActions log].
  apply (forExtractors_entries registeredTriggers cfg registeredTriggers_outcome).
Qed.

(** C2, as the code has it. For every line of every message, the loop invokes
    the six registered extractors in the order type-mismatch,
    identifier-suggestion, record-fields, type-conversion, uncurried-call,
    exhaustiveness: the extractors invoked form a prefix of that list, each
    one but the last reports no match, and an extractor is left out only
    when the last one invoked reported a match. *)
Theorem extractors_tried_in_registered_order
    (cfg : findCodeActionsConfig) (l : string) (index : nat) (array : list string)
    (w : world) :
  codeActionEtractors
  = [ simpleTypeMismatches; didYouMeanAction; addUndefinedRecordFields;
      simpleConversion; applyUncurried; simpleAddMissingCases ]
  /\ exists tried notTried found w',
       codeActionEtractors = tried ++ notTried
       /\ triedInOrder (extractorConfig cfg l index array) w tried found w'
       /\ forExtractors codeActionEtractors (extractorConfig cfg l index array) w
          = (Normal tt, w')
       /\ (found = false -> notTried = []).
Proof. split; [reflexivity | apply forExtractors_tried]. Qed.

(** C2, with identifier-suggestion first among five extractors, fails: the
    first extractor tried is the type-mismatch one. On the line "This has
    type: string" followed by "Somewhere wanted: option<string>" the first
    registered extractor reports a match where identifier-suggestion reports
    none, and the dispatcher produces an action that the five other
    extractors, tried in their order, do not produce. *)
Lemma identifier_suggestion_is_not_tried_first :
  let message := [ "This has type: string"; "Somewhere wanted: option<string>" ] in
  let cfg := sampleLineConfig message 0 sampleRange in
  (exists first, head codeActionEtractors = Some first
                 /\ reportsMatch first cfg ∅ = true)
  /\ reportsMatch didYouMeanAction cfg ∅ = false
  /\ fst (snd (forExtractors codeActionEtractors cfg (∅, [])))
     <> fst (snd (forExtractors
                    [ didYouMeanAction; addUndefinedRecordFields; simpleConversion;
                      applyUncurried; simpleAddMissingCases ] cfg (∅, []))).
Proof.
  cbv zeta. split; [|split].
  - eexists. split; [reflexivity|]. vm_compute. reflexivity.
  - vm_compute. reflexivity.
  - intros Heq.
    apply (f_equal (fun codeActions : filesCodeActions =>
                      length (entries codeActions "src/Demo.res"))) in Heq.
    vm_compute in Heq. discriminate.
Qed.

(** C4, as the code has it. For every input the dispatcher completes
    normally. An exception thrown by an extractor is caught, logged and
    counted as no match: the loop goes on with the next extractor, on the
    accumulator as it is at the throw and with the error appended to the log;
    and the lines after a line are processed from the world that line left,
    whatever happened on it. There is no rollback. When the slot of the
    diagnostic's file is absent or holds an array, the accumulator after the
    pass is the one obtained with every throw replaced by a no-match return,
    and the log after the pass is the log before it followed by one error for
    each line on which the record-fields extractor throws. *)
Theorem dispatcher_catches_extractor_exceptions (cfg : findCodeActionsConfig) (w : world) :
  (exists w', findCodeActionsInDiagnosticsMessage cfg w = (Normal tt, w'))
  /\ (forall ex rest lineCfg e codeActions',
        ex lineCfg (fst w) = (Throw e, codeActions') ->
        forExtractors (ex :: rest) lineCfg w
        = forExtractors rest lineCfg (codeActions', snd w ++ [e]))
  /\ (forall before after,
        diagnosticMessage cfg = before ++ after ->
        findCodeActionsInDiagnosticsMessage cfg w
        = forEach_from
            (fun l i arr => forExtractors codeActionEtractors (extractorConfig cfg l i arr))
            (diagnosticMessage cfg) (length before) after
            (snd (forEach_from
                    (fun l i arr =>
                       forExtractors codeActionEtractors (extractorConfig cfg l i arr))
                    (diagnosticMessage cfg) O before w)))
  /\ (arraySlot (fst w) (file cfg) = true ->
      fst (snd (findCodeActionsInDiagnosticsMessage cfg w))
      = fst (snd (findCodeActionsWith (map asNoMatch codeActionEtractors) cfg w))
      /\ snd (snd (findCodeActionsInDiagnosticsMessage cfg w))
         = snd w ++ errorsFrom (diagnosticMessage cfg) O (diagnosticMessage cfg)).
Proof.
  split_and!.
  - apply (forEach_from_normal (fun _ _ _ => codeActionEtractors)).
  - intros ex rest lineCfg e codeActions' Hthrow. destruct w as [codeActions log].
    now apply forExtractors_cons_throw.
  - intros before after Hmessage.
    unfold findCodeActionsInDiagnosticsMessage, findCodeActionsWith, forEach.
    rewrite Hmessage at 2. now rewrite forEach_from_app.
  - intros Hslot. destruct w as [codeActions log]. split.
    + now apply forEach_asNoMatch.
    + now apply forEach_log.
Qed.

(** The record-fields extractor throws on a trigger line without names that
    is followed by another line; the dispatcher logs the error, tries the
    remaining extractors, and processes the next line. *)
Lemma dispatcher_catches_extractor_exceptions_witness :
  let message := [ "Some record fields are undefined:"; "Hint: Did you mean foo" ] in
  let cfg := sampleConfig message sampleRange in
  let lineCfg := sampleLineConfig message 0 sampleRange in
  addUndefinedRecordFields lineCfg ∅ = (Throw recordFieldsError, ∅)
  /\ forExtractors [ addUndefinedRecordFields; simpleConversion ] lineCfg (∅, [])
     = forExtractors [ simpleConversion ] lineCfg (∅, [recordFieldsError])
  /\ fst (snd (findCodeActionsInDiagnosticsMessage cfg (∅, [])))
     = fst (snd (findCodeActionsWith (map asNoMatch codeActionEtractors) cfg (∅, [])))
  /\ snd (snd (findCodeActionsInDiagnosticsMessage cfg (∅, []))) = [recordFieldsError].
Proof.
  cbv zeta. split; [reflexivity|].
  pose proof (dispatcher_catches_extractor_exceptions
                (sampleConfig [ "Some record fields are undefined:"; "Hint: Did you mean foo" ]
                   sampleRange) (∅, [])) as (_ & Hthrow & _ & Hslot).
  split; [|exact (Hslot eq_refl)].
  exact (Hthrow addUndefinedRecordFields [ simpleConversion ]
           (sampleLineConfig [ "Some record fields are undefined:"; "Hint: Did you mean foo" ]
              0 sampleRange) recordFieldsError ∅ eq_refl).
Defined.

(** C4, with the accumulator left as if the throwing extractor had reported
    no match for every input, fails. For a diagnostic of the file
    "constructor" the identifier-suggestion extractor stores the inherited
    value under that name and then throws on [push]: the accumulator after
    the pass holds that value, where a no-match return would have left it
    empty. *)
Lemma throw_after_the_assignment_leaves_a_mark :
  let cfg := inheritedKeyConfig [ "Hint: Did you mean foo" ] sampleRange in
  let lineCfg := extractorConfig cfg "Hint: Did you mean foo" 0 (diagnosticMessage cfg) in
  didYouMeanAction lineCfg ∅
  = (Throw (TypeError "codeActions[file].push is not a function"),
     {[ "constructor" := Inherited "constructor" ]})
  /\ findCodeActionsInDiagnosticsMessage cfg (∅, [])
     = (Normal tt, ({[ "constructor" := Inherited "constructor" ]},
                    [ TypeError "codeActions[file].push is not a function" ]))
  /\ fst (snd (findCodeActionsWith (map asNoMatch codeActionEtractors) cfg (∅, []))) = ∅
  /\ fst (snd (findCodeActionsInDiagnosticsMessage cfg (∅, [])))
     <> fst (snd (findCodeActionsWith (map asNoMatch codeActionEtractors) cfg (∅, []))).
Proof.
  cbv zeta. split_and!; try (vm_compute; reflexivity).
  intros Heq.
  apply (f_equal (fun codeActions : filesCodeActions => codeActions !! "constructor")) in Heq.
  vm_compute in Heq. discriminate.
Qed.

Example dispatcher_goes_on_after_a_throw :
  let cfg := sampleConfig
               [ "Some record fields are undefined:"; "Hint: Did you mean foo" ]
               sampleRange in
  exists found,
    findCodeActionsInDiagnosticsMessage cfg (∅, [])
    = (Normal tt, ({[ file cfg := Entries [found] ]}, [recordFieldsError]))
    /\ title (codeAction found) = "Replace with 'foo'".
Proof. eexists. split; [vm_compute; reflexivity | reflexivity]. Qed.

(** ** What a matching extractor stores *)

(** On a slot that is absent or holds an array, the two statements and the
    [return true] store the expected action at the end of the array of the
    file and change nothing else. *)
Lemma pushes_expected cfg (ttl : string) (edits : list TextEdit)
    (codeActions : filesCodeActions) :
  arraySlot codeActions (cfg_file cfg) = true ->
  exists codeActions',
    thenReturn true (pushAction (cfg_file cfg) (quickFix cfg ttl edits) codeActions)
    = (Normal true, codeActions')
    /\ pushedOnto codeActions codeActions' (cfg_file cfg)
         (expectedAction (cfg_range cfg) (cfg_diagnostic cfg) (cfg_file cfg) ttl edits).
Proof.
  intros Hslot. rewrite pushAction_arraySlot by assumption.
  eexists. split; [reflexivity|].
  apply (appended_pushedOnto (cfg_file cfg) (quickFix cfg ttl edits)).
Qed.

(** ** Identifier suggestion *)

Section DidYouMean.

Lemma takeWhile_allChars P (s : string) : allChars P (Regex.takeWhile P s) = true.
Proof.
  induction s as [|c s IH]; [reflexivity|].
  simpl. destruct (P c) eqn:Hc; [|reflexivity]. simpl. now rewrite Hc.
Qed.

Lemma didYouMeanAt_token (s tok : string) :
  Regex.didYouMeanAt s = Some (Some tok) ->
  tok <> EmptyString /\ allChars Regex.isWord tok = true.
Proof.
  unfold Regex.didYouMeanAt. destruct (Regex.stripPrefix _ s) as [r|]; [|discriminate].
  pose proof (takeWhile_allChars Regex.isWord r) as Hall.
  destruct (Regex.takeWhile Regex.isWord r) as [|c t]; [discriminate|].
  intros [= <-]. split; [discriminate | assumption].
Qed.

Lemma didYouMean_token (s tok : string) :
  Regex.didYouMean s = Some (Some tok) ->
  tok <> EmptyString /\ allChars Regex.isWord tok = true.
Proof.
  unfold Regex.didYouMean. induction s as [|c s IH]; simpl.
  - discriminate.
  - destruct (Regex.didYouMeanAt (String c s)) eqn:E; [|exact IH].
    intros [= ->]. now apply didYouMeanAt_token in E.
Qed.

(** On a line that begins with the marker and a space, the expression
    matches right after "Hint: ". *)
Lemma didYouMean_after_marker (r : string) :
  Regex.didYouMean ("Hint: Did you mean " +:+ r)
  = match Regex.takeWhile Regex.isWord r with
    | EmptyString => Some None
    | tok => Some (Some tok)
    end.
Proof.
  change ("Hint: Did you mean " +:+ r)
    with (String "H" (String "i" (String "n" (String "t" (String ":" (String " "
            ("Did you mean " +:+ r))))))).
  unfold Regex.didYouMean.
  do 6 (rewrite search_skip by reflexivity).
  assert (Hat : Regex.didYouMeanAt ("Did you mean " +:+ r)
                = Some (match Regex.takeWhile Regex.isWord r with
                        | EmptyString => None
                        | tok => Some tok
                        end)).
  { unfold Regex.didYouMeanAt. rewrite stripPrefix_append.
    now destruct (Regex.takeWhile Regex.isWord r). }
  rewrite (search_here _ _ _ Hat).
  now destruct (Regex.takeWhile Regex.isWord r).
Qed.

End DidYouMean.

(** C3. On a line that starts with the marker "Hint: Did you mean":
    when a token of letters, digits and underscores follows the marker (after
    its space) and the slot of the file is absent or holds an array, the
    extractor reports a match and stores one action at the end of the array of
    the file, whose single edit replaces the diagnosed range with that token;
    when no token follows, or the line ends with the marker, nothing is
    stored and no match is reported; and on such a slot the extractor either
    stores nothing or stores one such action. *)
Theorem didYouMeanAction_replaces_range
    (cfg : codeActionExtractorConfig) (codeActions : filesCodeActions) :
  JS.startsWith (cfg_line cfg) "Hint: Did you mean" = true ->
  (forall tok rest,
      cfg_line cfg = "Hint: Did you mean " +:+ tok +:+ rest ->
      tok <> EmptyString ->
      allChars Regex.isWord tok = true ->
      stopsAt Regex.isWord rest = true ->
      arraySlot codeActions (cfg_file cfg) = true ->
      exists codeActions',
        didYouMeanAction cfg codeActions = (Normal true, codeActions')
        /\ pushedOnto codeActions codeActions' (cfg_file cfg)
             (expectedAction (cfg_range cfg) (cfg_diagnostic cfg) (cfg_file cfg)
                ("Replace with '" +:+ tok +:+ "'")
                [ {| range := cfg_range cfg; newText := tok |} ]))
  /\ (forall rest,
        cfg_line cfg = "Hint: Did you mean " +:+ rest ->
        stopsAt Regex.isWord rest = true ->
        didYouMeanAction cfg codeActions = (Normal false, codeActions))
  /\ (cfg_line cfg = "Hint: Did you mean" ->
      didYouMeanAction cfg codeActions = (Normal false, codeActions))
  /\ (arraySlot codeActions (cfg_file cfg) = true ->
      didYouMeanAction cfg codeActions = (Normal false, codeActions)
      \/ exists tok codeActions',
           tok <> EmptyString /\ allChars Regex.isWord tok = true
           /\ didYouMeanAction cfg codeActions = (Normal true, codeActions')
           /\ pushedOnto codeActions codeActions' (cfg_file cfg)
                (expectedAction (cfg_range cfg) (cfg_diagnostic cfg) (cfg_file cfg)
                   ("Replace with '" +:+ tok +:+ "'")
                   [ {| range := cfg_range cfg; newText := tok |} ])).
Proof.
  intros Hstart. unfold didYouMeanAction. rewrite Hstart.
  split; [|split; [|split]].
  - intros tok rest Hline Htok Hall Hrest Hslot.
    rewrite Hline, didYouMean_after_marker, takeWhile_append by assumption.
    destruct tok as [|c tok]; [congruence|].
    now apply pushes_expected.
  - intros rest Hline Hrest.
    rewrite Hline, didYouMean_after_marker.
    replace (Regex.takeWhile Regex.isWord rest) with EmptyString; [reflexivity|].
    destruct rest as [|c rest]; [reflexivity|].
    simpl in *. now destruct (Regex.isWord c).
  - intros Hline. now rewrite Hline.
  - intros Hslot.
    destruct (Regex.didYouMean (cfg_line cfg)) as [[tok|]|] eqn:E; [|now left|now left].
    right. apply didYouMean_token in E as [Hne Hall].
    destruct (pushes_expected cfg ("Replace with '" +:+ tok +:+ "'")
                [ {| range := cfg_range cfg; newText := tok |} ] codeActions Hslot)
      as (codeActions' & Hrun & Hstored).
    now exists tok, codeActions'.
Qed.

(** The example of the specification: "Hint: Did you mean someIdent". *)
Lemma didYouMeanAction_replaces_range_witness :
  let cfg := sampleLineConfig [ "Hint: Did you mean someIdent" ] 0 sampleRange in
  JS.startsWith (cfg_line cfg) "Hint: Did you mean" = true
  /\ exists codeActions',
       didYouMeanAction cfg ∅ = (Normal true, codeActions')
       /\ pushedOnto ∅ codeActions' "src/Demo.res"
            (expectedAction sampleRange sampleDiagnostic "src/Demo.res"
               "Replace with 'someIdent'"
               [ {| range := sampleRange; newText := "someIdent" |} ]).
Proof.
  cbv zeta. split; [reflexivity|].
  apply (proj1 (didYouMeanAction_replaces_range
                  (sampleLineConfig [ "Hint: Did you mean someIdent" ] 0 sampleRange) ∅
                  eq_refl) "someIdent" EmptyString);
    [reflexivity | discriminate | reflexivity | reflexivity | reflexivity].
Defined.

(** ** Missing record fields *)

Section RecordFields.

Lemma spaces_add (a b : nat) : spaces (a + b) = spaces a +:+ spaces b.
Proof. induction a as [|a IH]; [reflexivity|]. simpl. now rewrite IH. Qed.

Lemma concat_cons_cons (sep x y : string) (l : list string) :
  String.concat sep (x :: y :: l) = x +:+ sep +:+ String.concat sep (y :: l).
Proof. reflexivity. Qed.

Lemma concat_empty_cons (x : string) (l : list string) :
  String.concat EmptyString (x :: l) = x +:+ String.concat EmptyString l.
Proof.
  destruct l as [|y l]; [simpl; now rewrite append_nil_r|].
  now rewrite concat_cons_cons, append_nil_l.
Qed.

(** Pieces that end in a line break, followed by a last line, are the lines
    joined by line breaks. *)
Lemma concat_lines (body : string -> string) (names : list string) (lastLine : string) :
  String.concat EmptyString (map (fun name => body name +:+ JS.nl) names) +:+ lastLine
  = String.concat JS.nl (map body names ++ [lastLine]).
Proof.
  induction names as [|x names IH]; [reflexivity|].
  simpl map. rewrite concat_empty_cons.
  change ((body x :: map body names) ++ [lastLine])
    with (body x :: (map body names ++ [lastLine])).
  destruct (map body names ++ [lastLine]) as [|y l] eqn:E.
  - now destruct (map body names).
  - rewrite concat_cons_cons, <- IH. now rewrite !append_assoc.
Qed.

Lemma split_go_nonempty sep skip cur s : JS.split_go sep skip cur s <> [].
Proof.
  revert skip cur. induction s as [|c s IH]; intros skip cur; simpl; [discriminate|].
  destruct skip; [|apply IH]. repeat case_match; solve [discriminate | apply IH].
Qed.

Lemma collectRecordFieldNames_nonempty first following names :
  collectRecordFieldNames (firstRecordFieldNames first) following = Normal (Some names) ->
  names <> [].
Proof.
  unfold firstRecordFieldNames, collectRecordFieldNames.
  destruct (_ !! 1%nat) as [s|]; [|destruct following; intros [=]].
  simpl. intros [= <-]. pose proof (split_go_nonempty " " O EmptyString s) as Hne.
  unfold JS.split. now destruct (JS.split_go " " O EmptyString s).
Qed.

(** The text built by the source for a multi-line body, in terms of the
    column [c] of the closing delimiter. *)
Lemma multilineRecordFieldsText_layout (r : Range) (name : string) (names : list string) :
  1 <= character (end_ r) ->
  let c := Z.to_nat (character (end_ r) - 1) in
  multilineRecordFieldsText r (name :: names)
  = "  " +:+ name +:+ ": assert false," +:+ JS.nl
    +:+ String.concat EmptyString
          (map (fun n => (spaces (c + 2) +:+ n +:+ ": assert false,") +:+ JS.nl) names)
    +:+ spaces c.
Proof.
  intros Hc c. unfold multilineRecordFieldsText.
  rewrite !arrayFromLengthJoin_spaces by lia.
  replace (Z.to_nat (character (end_ r) + 2 - 1)) with (c + 2)%nat by (unfold c; lia).
  fold c. unfold JS.join. simpl imap. rewrite concat_empty_cons.
  rewrite (imap_ext _ (const (fun n => (spaces (c + 2) +:+ n +:+ ": assert false,") +:+ JS.nl)))
    by (intros; simpl; now rewrite !append_assoc).
  rewrite imap_const. change (@fmap list _ string string) with (@map string string).
  now rewrite !append_assoc.
Qed.

End RecordFields.

(** C5. For the message line "Some record fields are undefined: foo bar",
    with no line after it, a range that starts and ends on the same line and
    a slot of the file that is absent or holds an array, the record-fields
    extractor reports a match and stores one action with exactly one edit:
    the insertion of ", foo: assert false, bar: assert false" at the position
    one character before the end of the range. *)
Theorem record_fields_on_a_single_line
    (cfg : codeActionExtractorConfig) (codeActions : filesCodeActions) :
  cfg_line cfg = "Some record fields are undefined: foo bar" ->
  JS.arraySlice (cfg_array cfg) (cfg_index cfg + 1) = [] ->
  line (start (cfg_range cfg)) = line (end_ (cfg_range cfg)) ->
  arraySlot codeActions (cfg_file cfg) = true ->
  exists codeActions',
    addUndefinedRecordFields cfg codeActions = (Normal true, codeActions')
    /\ pushedOnto codeActions codeActions' (cfg_file cfg)
         (expectedAction (cfg_range cfg) (cfg_diagnostic cfg) (cfg_file cfg)
            "Add missing record fields"
            [ {| range := pointRange (line (end_ (cfg_range cfg)))
                            (character (end_ (cfg_range cfg)) - 1);
                 newText := ", foo: assert false, bar: assert false" |} ]).
Proof.
  intros Hline Hlast Hsame Hslot. unfold addUndefinedRecordFields.
  rewrite Hline, Hlast, Hsame, Z.eqb_refl.
  change (JS.startsWith "Some record fields are undefined: foo bar"
            "Some record fields are undefined:") with true.
  change (collectRecordFieldNames
            (firstRecordFieldNames "Some record fields are undefined: foo bar") [])
    with (Normal (Some [ "foo"; "bar" ])).
  cbv iota beta zeta. simpl negb. cbv iota.
  now apply pushes_expected.
Qed.

Lemma record_fields_on_a_single_line_witness :
  let cfg := sampleLineConfig [ "Some record fields are undefined: foo bar" ] 0 sampleRange in
  exists codeActions',
    addUndefinedRecordFields cfg ∅ = (Normal true, codeActions')
    /\ pushedOnto ∅ codeActions' "src/Demo.res"
         (expectedAction sampleRange sampleDiagnostic "src/Demo.res"
            "Add missing record fields"
            [ {| range := pointRange 3 8;
                 newText := ", foo: assert false, bar: assert false" |} ]).
Proof.
  cbv zeta.
  apply (record_fields_on_a_single_line
           (sampleLineConfig [ "Some record fields are undefined: foo bar" ] 0 sampleRange) ∅);
    reflexivity.
Defined.

(** The same through the dispatcher, for the message made of that one line. *)
Example record_fields_single_line_message :
  let cfg := sampleConfig [ "Some record fields are undefined: foo bar" ] sampleRange in
  exists found,
    findCodeActionsInDiagnosticsMessage cfg (∅, [])
    = (Normal tt, ({[ file cfg := Entries [found] ]}, []))
    /\ changes (edit (codeAction found))
       = {[ file cfg := [ {| range := pointRange 3 8;
                             newText := ", foo: assert false, bar: assert false" |} ] ]}.
Proof. eexists. split; [vm_compute; reflexivity | reflexivity]. Qed.

(** C6. For a record-fields diagnostic whose range spans several lines, with
    the closing delimiter at column [c] (the last column of the range) and a
    slot of the file that is absent or holds an array, the extractor reports
    a match and stores one action with one edit, an insertion at column [c]
    of the last line. With [c] characters of indentation before the
    insertion point and the closing delimiter after it, the text of the last
    line becomes: one line per field, each of the form [name: assert false,]
    behind [c + 2] spaces, and then the closing delimiter on a line of its
    own behind [c] spaces, its original column. *)
Theorem record_fields_on_several_lines
    (cfg : codeActionExtractorConfig) (codeActions : filesCodeActions)
    (names : list string) (closing : string) :
  JS.startsWith (cfg_line cfg) "Some record fields are undefined:" = true ->
  collectRecordFieldNames (firstRecordFieldNames (cfg_line cfg))
    (JS.arraySlice (cfg_array cfg) (cfg_index cfg + 1)) = Normal (Some names) ->
  line (start (cfg_range cfg)) <> line (end_ (cfg_range cfg)) ->
  1 <= character (end_ (cfg_range cfg)) ->
  arraySlot codeActions (cfg_file cfg) = true ->
  let c := Z.to_nat (character (end_ (cfg_range cfg)) - 1) in
  exists text codeActions',
    addUndefinedRecordFields cfg codeActions = (Normal true, codeActions')
    /\ pushedOnto codeActions codeActions' (cfg_file cfg)
         (expectedAction (cfg_range cfg) (cfg_diagnostic cfg) (cfg_file cfg)
            "Add missing record fields"
            [ {| range := pointRange (line (end_ (cfg_range cfg))) (Z.of_nat c);
                 newText := text |} ])
    /\ spaces c +:+ text +:+ closing
       = String.concat JS.nl
           (map (fun name => spaces (c + 2) +:+ name +:+ ": assert false,") names
            ++ [spaces c +:+ closing]).
Proof.
  intros Hstart Hnames Hmulti Hc Hslot c.
  exists (multilineRecordFieldsText (cfg_range cfg) names).
  destruct (pushes_expected cfg "Add missing record fields"
              [ {| range := pointRange (line (end_ (cfg_range cfg))) (Z.of_nat c);
                   newText := multilineRecordFieldsText (cfg_range cfg) names |} ]
              codeActions Hslot) as (codeActions' & Hrun & Hstored).
  exists codeActions'. split_and!; [|exact Hstored|].
  - unfold addUndefinedRecordFields. rewrite Hstart, Hnames.
    apply Z.eqb_neq in Hmulti. rewrite Hmulti. simpl negb. cbv iota.
    rewrite <- Hrun. unfold insertBeforeEndingChar, pointRange.
    replace (Z.of_nat c) with (character (end_ (cfg_range cfg)) - 1) by (unfold c; lia).
    reflexivity.
  - pose proof (collectRecordFieldNames_nonempty _ _ _ Hnames) as Hne.
    destruct names as [|name names]; [congruence|].
    rewrite multilineRecordFieldsText_layout by assumption. fold c.
    rewrite <- (concat_lines (fun n => spaces (c + 2) +:+ n +:+ ": assert false,")).
    simpl map. rewrite concat_empty_cons.
    rewrite spaces_add. change (spaces 2) with "  ".
    now rewrite !append_assoc.
Qed.

Lemma record_fields_on_several_lines_witness :
  let message := [ "Some record fields are undefined: foo bar"; "baz" ] in
  let cfg := sampleLineConfig message 0 sampleMultilineRange in
  exists text codeActions',
    addUndefinedRecordFields cfg ∅ = (Normal true, codeActions')
    /\ pushedOnto ∅ codeActions' "src/Demo.res"
         (expectedAction sampleMultilineRange sampleDiagnostic "src/Demo.res"
            "Add missing record fields"
            [ {| range := pointRange 5 2; newText := text |} ])
    /\ "  " +:+ text +:+ "}"
       = String.concat JS.nl
           [ "    foo: assert false,"; "    bar: assert false,"; "    baz: assert false,";
             "  }" ].
Proof.
  cbv zeta.
  apply (record_fields_on_several_lines
           (sampleLineConfig [ "Some record fields are undefined: foo bar"; "baz" ] 0
              sampleMultilineRange) ∅ [ "foo"; "bar"; "baz" ] "}");
    [reflexivity | reflexivity | discriminate | simpl; lia | reflexivity].
Defined.

(** ** Type conversion *)

Section Conversion.

Lemma prefix_append (p s : string) : String.prefix p (p +:+ s) = true.
Proof.
  induction p as [|c p IH]; [apply prefix_empty|].
  rewrite append_cons. simpl. now destruct (ascii_dec c c).
Qed.

Lemma takeWhile_all P (s : string) :
  allChars P s = true -> Regex.takeWhile P s = s /\ Regex.dropWhile P s = EmptyString.
Proof.
  induction s as [|c s IH]; [now split|].
  simpl. intros [Hc Hs]%andb_prop. rewrite Hc. destruct (IH Hs) as [-> ->]. now split.
Qed.

(** A line of the form [You can convert A to B with fn.] is matched at its
    first character, with [fn] as third group. *)
Lemma conversion_matches (A B fn : string) :
  allChars Regex.isWord A = true ->
  allChars Regex.isWord B = true ->
  allChars Regex.isWordOrDot fn = true ->
  Regex.conversion
    ("You can convert " +:+ A +:+ " to " +:+ B +:+ " with " +:+ fn +:+ ".")
  = Some (A, B, fn).
Proof.
  intros HA HB Hfn. apply search_here. unfold Regex.conversionAt.
  rewrite stripPrefix_append.
  rewrite (dropWhile_append _ A), (takeWhile_append _ A) by (assumption || reflexivity).
  rewrite stripPrefix_append.
  rewrite (dropWhile_append _ B), (takeWhile_append _ B) by (assumption || reflexivity).
  rewrite stripPrefix_append.
  assert (Hrun : allChars Regex.isWordOrDot (fn +:+ ".") = true)
    by (rewrite allChars_append, Hfn; reflexivity).
  destruct (takeWhile_all _ _ Hrun) as [-> ->].
  rewrite removeLast_append_char. now destruct fn.
Qed.

Lemma wrapRangeInText_edits (r : Range) (wrapStart wrapEnd : string) :
  wrapRangeInText r wrapStart wrapEnd
  = [ {| range := pointRange (line (start r))
                    (character (start r) - (if decide (start r = end_ r) then 1 else 0));
         newText := wrapStart |};
      {| range := pointRange (line (end_ r)) (character (end_ r)); newText := wrapEnd |} ].
Proof.
  unfold wrapRangeInText. destruct r as [[l1 c1] [l2 c2]]. simpl.
  destruct (Z.eqb_spec l1 l2), (Z.eqb_spec c1 c2); simpl;
    case_decide; simplify_eq; reflexivity || congruence.
Qed.

End Conversion.

(** C7. For a line of the form [You can convert A to B with fn.], where [A]
    and [B] are words and [fn] is made of word characters and dots, and a
    slot of the file that is absent or holds an array, the extractor reports
    a match and stores one action with exactly two zero-width edits: [fn(] at
    the start of the diagnosed range and [)] at its end; when the range is a
    single point (start equals end) the opening edit sits one character
    before the start. *)
Theorem conversion_wraps_range
    (cfg : codeActionExtractorConfig) (codeActions : filesCodeActions) (A B fn : string) :
  cfg_line cfg = "You can convert " +:+ A +:+ " to " +:+ B +:+ " with " +:+ fn +:+ "." ->
  allChars Regex.isWord A = true ->
  allChars Regex.isWord B = true ->
  allChars Regex.isWordOrDot fn = true ->
  arraySlot codeActions (cfg_file cfg) = true ->
  let r := cfg_range cfg in
  let shift := if decide (start r = end_ r) then 1 else 0 in
  exists codeActions',
    simpleConversion cfg codeActions = (Normal true, codeActions')
    /\ pushedOnto codeActions codeActions' (cfg_file cfg)
         (expectedAction (cfg_range cfg) (cfg_diagnostic cfg) (cfg_file cfg)
            ("Convert " +:+ A +:+ " to " +:+ B +:+ " with " +:+ fn)
            [ {| range := pointRange (line (start r)) (character (start r) - shift);
                 newText := fn +:+ "(" |};
              {| range := pointRange (line (end_ r)) (character (end_ r));
                 newText := ")" |} ]).
Proof.
  intros Hline HA HB Hfn Hslot r shift. unfold simpleConversion, JS.startsWith.
  rewrite Hline, prefix_append, conversion_matches by assumption.
  rewrite wrapRangeInText_edits.
  now apply pushes_expected.
Qed.

(** The example of the specification, on a range and on a single point. *)
Lemma conversion_wraps_range_witness :
  let message := [ "You can convert int to float with Belt.Float.fromInt." ] in
  let point := pointRange 7 5 in
  (exists codeActions',
      simpleConversion (sampleLineConfig message 0 sampleRange) ∅ = (Normal true, codeActions')
      /\ pushedOnto ∅ codeActions' "src/Demo.res"
           (expectedAction sampleRange sampleDiagnostic "src/Demo.res"
              "Convert int to float with Belt.Float.fromInt"
              [ {| range := pointRange 3 4; newText := "Belt.Float.fromInt(" |};
                {| range := pointRange 3 9; newText := ")" |} ]))
  /\ (exists codeActions',
        simpleConversion (sampleLineConfig message 0 point) ∅ = (Normal true, codeActions')
        /\ pushedOnto ∅ codeActions' "src/Demo.res"
             (expectedAction point sampleDiagnostic "src/Demo.res"
                "Convert int to float with Belt.Float.fromInt"
                [ {| range := pointRange 7 4; newText := "Belt.Float.fromInt(" |};
                  {| range := pointRange 7 5; newText := ")" |} ])).
Proof.
  cbv zeta. split.
  - apply (conversion_wraps_range
             (sampleLineConfig [ "You can convert int to float with Belt.Float.fromInt." ] 0
                sampleRange) ∅ "int" "float" "Belt.Float.fromInt"); reflexivity.
  - apply (conversion_wraps_range
             (sampleLineConfig [ "You can convert int to float with Belt.Float.fromInt." ] 0
                (pointRange 7 5)) ∅ "int" "float" "Belt.Float.fromInt"); reflexivity.
Defined.

(** ** Missing match cases *)

Section MissingCases.

Lemma slice_strip_ends (a b : ascii) (inner : string) :
  JS.slice (String a (inner +:+ String b EmptyString)) 1
    (Z.of_nat (String.length (String a (inner +:+ String b EmptyString))) - 1)
  = inner.
Proof. apply slice_strip. Qed.

Lemma countChar_replaceAllChar (s : string) (c d e : ascii) :
  e <> c -> e <> d ->
  JS.countChar (JS.replaceAllChar s c d) e = JS.countChar s e.
Proof.
  intros Hc Hd. induction s as [|x s IH]; [reflexivity|].
  simpl. rewrite IH. f_equal.
  destruct (Ascii.eqb x c) eqn:Hx; [|reflexivity].
  apply Ascii.eqb_eq in Hx as ->.
  apply not_eq_sym, Ascii.eqb_neq in Hc, Hd. now rewrite Hc, Hd.
Qed.

(** What the normalisation does reject: an opening parenthesis, an opening
    brace, and three or more spaces. *)
Lemma transformMatchPattern_rejects_brace (s : string) :
  JS.includes s "{" = true -> transformMatchPattern s = None.
Proof.
  intros Hb. pose proof (transformMatchPattern_unfold s) as Heq.
  unfold transformMatchPattern_body in Heq. rewrite Hb, orb_true_r in Heq.
  congruence.
Qed.

Lemma transformMatchPattern_rejects_three_spaces (s : string) :
  (3 <= JS.countChar s " ")%nat -> transformMatchPattern s = None.
Proof.
  intros Hn. pose proof (transformMatchPattern_unfold s) as Heq.
  unfold transformMatchPattern_body in Heq.
  destruct (_ || _); [congruence|]. cbv zeta in Heq.
  rewrite countChar_replaceAllChar in Heq by discriminate.
  apply Nat.ltb_lt in Hn. rewrite Hn in Heq. congruence.
Qed.

Lemma missingCasesText_three (r : Range) (a b c : string) :
  1 <= character (end_ r) ->
  let col := Z.to_nat (character (end_ r) - 1) in
  missingCasesText r [a; b; c]
  = ("| " +:+ a +:+ " => assert false") +:+ JS.nl
    +:+ (spaces col +:+ "| " +:+ b +:+ " => assert false") +:+ JS.nl
    +:+ (spaces col +:+ "| " +:+ c +:+ " => assert false") +:+ JS.nl
    +:+ spaces col.
Proof.
  intros Hc col. unfold missingCasesText.
  rewrite arrayFromLengthJoin_spaces by assumption. fold col.
  unfold JS.join. simpl imap. rewrite !concat_cons_cons. simpl String.concat.
  now rewrite !append_assoc.
Qed.

End MissingCases.

(** C8. On a trigger line of the exhaustiveness extractor:
    when the lines after it concatenate to "(`AnotherValue|`Third|`Fourth)"
    and the slot of the file is absent or holds an array, the extractor
    reports a match and stores one action whose single edit inserts, at the
    column [c] of the closing delimiter, the three arms
    [| #AnotherValue => assert false], [| #Third => assert false] and
    [| #Fourth => assert false], one per line, the second and third behind
    [c] spaces, followed by a line of [c] spaces for the closing delimiter;
    and when the text left after stripping the first and last character still
    includes an opening parenthesis, nothing is stored and no match is
    reported. *)
Theorem missing_cases_are_inserted
    (cfg : codeActionExtractorConfig) (codeActions : filesCodeActions) :
  JS.startsWith (cfg_line cfg) "You forgot to handle a possible case here, for example:"
  = true ->
  let following := JS.join (JS.arraySlice (cfg_array cfg) (cfg_index cfg + 1)) EmptyString in
  (following = "(`AnotherValue|`Third|`Fourth)" ->
   1 <= character (end_ (cfg_range cfg)) ->
   arraySlot codeActions (cfg_file cfg) = true ->
   let c := Z.to_nat (character (end_ (cfg_range cfg)) - 1) in
   exists codeActions',
     simpleAddMissingCases cfg codeActions = (Normal true, codeActions')
     /\ pushedOnto codeActions codeActions' (cfg_file cfg)
          (expectedAction (cfg_range cfg) (cfg_diagnostic cfg) (cfg_file cfg)
             "Insert missing cases"
             [ {| range := pointRange (line (end_ (cfg_range cfg))) (Z.of_nat c);
                  newText :=
                    "| #AnotherValue => assert false" +:+ JS.nl
                    +:+ (spaces c +:+ "| #Third => assert false") +:+ JS.nl
                    +:+ (spaces c +:+ "| #Fourth => assert false") +:+ JS.nl
                    +:+ spaces c |} ]))
  /\ (forall opening closing inner,
        JS.trim following = String opening (inner +:+ String closing EmptyString) ->
        JS.includes inner "(" = true ->
        simpleAddMissingCases cfg codeActions = (Normal false, codeActions)).
Proof.
  intros Hstart following. unfold simpleAddMissingCases. rewrite Hstart.
  unfold allCasesAsOneLine. fold following. split.
  - intros Hfollowing Hc Hslot.
    set (c := Z.to_nat (character (end_ (cfg_range cfg)) - 1)).
    rewrite Hfollowing.
    change (JS.trim "(`AnotherValue|`Third|`Fourth)") with "(`AnotherValue|`Third|`Fourth)".
    change (JS.slice "(`AnotherValue|`Third|`Fourth)" 1
              (Z.of_nat (String.length "(`AnotherValue|`Third|`Fourth)") - 1))
      with "`AnotherValue|`Third|`Fourth".
    change (JS.includes "`AnotherValue|`Third|`Fourth" "(") with false.
    change (missingCases "`AnotherValue|`Third|`Fourth")
      with [ "#AnotherValue"; "#Third"; "#Fourth" ].
    cbv zeta. simpl length. simpl Nat.eqb. cbv iota.
    rewrite missingCasesText_three by assumption. fold c.
    unfold insertBeforeEndingChar.
    replace (character (end_ (cfg_range cfg)) - 1) with (Z.of_nat c) by (unfold c; lia).
    now apply pushes_expected.
  - intros opening closing inner Htrim Hparen. cbv zeta.
    now rewrite Htrim, slice_strip_ends, Hparen.
Qed.

Lemma missing_cases_are_inserted_witness :
  let trigger := "You forgot to handle a possible case here, for example:" in
  let cfg := sampleLineConfig [ trigger; "(`AnotherValue|`Third|`Fourth)" ] 0
               sampleMultilineRange in
  let payload := sampleLineConfig [ trigger; "(`One (_, _)|`Two)" ] 0 sampleMultilineRange in
  (exists codeActions',
      simpleAddMissingCases cfg ∅ = (Normal true, codeActions')
      /\ pushedOnto ∅ codeActions' "src/Demo.res"
           (expectedAction sampleMultilineRange sampleDiagnostic "src/Demo.res"
              "Insert missing cases"
              [ {| range := pointRange 5 2;
                   newText :=
                     "| #AnotherValue => assert false" +:+ JS.nl
                     +:+ "  | #Third => assert false" +:+ JS.nl
                     +:+ "  | #Fourth => assert false" +:+ JS.nl
                     +:+ "  " |} ]))
  /\ simpleAddMissingCases payload ∅ = (Normal false, ∅).
Proof.
  cbv zeta. split.
  - apply (proj1 (missing_cases_are_inserted
                    (sampleLineConfig
                       [ "You forgot to handle a possible case here, for example:";
                         "(`AnotherValue|`Third|`Fourth)" ] 0 sampleMultilineRange)
                    ∅ eq_refl)); [reflexivity | simpl; lia | reflexivity].
  - apply (proj2 (missing_cases_are_inserted
                    (sampleLineConfig
                       [ "You forgot to handle a possible case here, for example:";
                         "(`One (_, _)|`Two)" ] 0 sampleMultilineRange)
                    ∅ eq_refl) "("%char ")"%char "`One (_, _)|`Two"); reflexivity.
Defined.

(** C9. The source comment says "Bail if there's more than 1" space, but the
    test is [matched.length > 2]: a case with exactly two spaces is not
    rejected. It is normalised from its first two words, the third is
    dropped, and the arm stays in the list of cases. In the same way
    "Braces means records. Bail." is tested on the opening brace only, so the
    piece of a record that holds the closing brace is kept. *)
Theorem two_spaces_are_not_rejected :
  JS.countChar "A B C" " " = 2%nat
  /\ transformMatchPattern "A B C" = Some "A(B)"
  /\ missingCases "A B C|D" = [ "A(B)"; "D" ]
  /\ transformMatchPattern "B}" = Some "B}"
  /\ missingCases "{x: A|B}" = [ "B}" ].
Proof. repeat split. Qed.

(** The rest of the normalisation step behaves as described: a null result is
    filtered out of the list of cases, and after the trigger and the
    parenthesis test the extractor reports no match exactly when no case is
    left. *)
Lemma null_cases_are_filtered_out :
  missingCases "A {x}|`B" = [ "#B" ]
  /\ missingCases "A B C D|E" = [ "E" ]
  /\ missingCases "A {x}|B C D E" = [].
Proof. repeat split. Qed.

Lemma simpleAddMissingCases_no_case_left
    (cfg : codeActionExtractorConfig) (codeActions : filesCodeActions) :
  JS.startsWith (cfg_line cfg) "You forgot to handle a possible case here, for example:"
  = true ->
  JS.includes (allCasesAsOneLine cfg) "(" = false ->
  (fst (simpleAddMissingCases cfg codeActions) = Normal false
   <-> missingCases (allCasesAsOneLine cfg) = []).
Proof.
  intros Hstart Hparen. unfold simpleAddMissingCases. rewrite Hstart, Hparen.
  destruct (missingCases (allCasesAsOneLine cfg)) as [|v vs]; simpl.
  - split; reflexivity.
  - destruct (pushAction _ _ _) as [[[]|e] ca']; simpl; split; congruence.
Qed.

(** ** Type mismatches on options *)

(** C10. On a line that starts with "This has type:", with [actual] and
    [wanted] the two normalised type names and a slot of the file that is
    absent or holds an array: when [actual] is [option<wanted>] the extractor
    reports a match and stores an action that wraps the range in "switch "
    and " { | None => d | Some(v) => v }", where [d] is "-" in double quotes
    for string, false for bool, -1 for int, -1. for float and "assert false"
    for every other type; otherwise, when [wanted] is [option<actual>], it
    stores an action that wraps the range in "Some(" and ")"; otherwise
    nothing is stored and no match is reported. *)
Theorem type_mismatch_wraps_or_unwraps
    (cfg : codeActionExtractorConfig) (codeActions : filesCodeActions) :
  JS.startsWith (cfg_line cfg) "This has type:" = true ->
  let actual := fst (mismatchTypes cfg) in
  let wanted := snd (mismatchTypes cfg) in
  let r := cfg_range cfg in
  let shift := if decide (start r = end_ r) then 1 else 0 in
  let wrap opening closing :=
    [ {| range := pointRange (line (start r)) (character (start r) - shift);
         newText := opening |};
      {| range := pointRange (line (end_ r)) (character (end_ r)); newText := closing |} ] in
  (actual = "option<" +:+ wanted +:+ ">" ->
   arraySlot codeActions (cfg_file cfg) = true ->
   exists codeActions',
     simpleTypeMismatches cfg codeActions = (Normal true, codeActions')
     /\ pushedOnto codeActions codeActions' (cfg_file cfg)
          (expectedAction (cfg_range cfg) (cfg_diagnostic cfg) (cfg_file cfg)
             "Unwrap optional value"
             (wrap "switch "
                (" { | None => " +:+ defaultValue wanted +:+ " | Some(v) => v }"))))
  /\ (actual <> "option<" +:+ wanted +:+ ">" ->
      wanted = "option<" +:+ actual +:+ ">" ->
      arraySlot codeActions (cfg_file cfg) = true ->
      exists codeActions',
        simpleTypeMismatches cfg codeActions = (Normal true, codeActions')
        /\ pushedOnto codeActions codeActions' (cfg_file cfg)
             (expectedAction (cfg_range cfg) (cfg_diagnostic cfg) (cfg_file cfg)
                "Wrap value in Some" (wrap "Some(" ")")))
  /\ (actual <> "option<" +:+ wanted +:+ ">" ->
      wanted <> "option<" +:+ actual +:+ ">" ->
      simpleTypeMismatches cfg codeActions = (Normal false, codeActions))
  /\ defaultValue "string" = JS.dquote +:+ "-" +:+ JS.dquote
  /\ defaultValue "bool" = "false"
  /\ defaultValue "int" = "-1"
  /\ defaultValue "float" = "-1."
  /\ (forall other,
        other <> "string" -> other <> "bool" -> other <> "int" -> other <> "float" ->
        defaultValue other = "assert false").
Proof.
  intros Hstart actual wanted r shift wrap. unfold simpleTypeMismatches. rewrite Hstart.
  subst actual wanted wrap. destruct (mismatchTypes cfg) as [actual wanted].
  simpl fst. simpl snd. rewrite !wrapRangeInText_edits. fold r. fold shift.
  split; [|split; [|split]].
  - intros -> Hslot. rewrite String.eqb_refl. now apply pushes_expected.
  - intros Hne -> Hslot. apply String.eqb_neq in Hne. rewrite Hne, String.eqb_refl.
    now apply pushes_expected.
  - intros Hne1 Hne2. apply String.eqb_neq in Hne1. rewrite Hne1.
    assert (Hne3 : String.eqb ("option<" +:+ actual +:+ ">") wanted = false)
      by (apply String.eqb_neq; congruence).
    now rewrite Hne3.
  - repeat split. intros other H1 H2 H3 H4. unfold defaultValue.
    apply String.eqb_neq in H1, H2, H3, H4. now rewrite H1, H2, H3, H4.
Qed.

(** The examples of the specification: a string where an option is wanted,
    and an option where a string is wanted. *)
Lemma type_mismatch_wraps_or_unwraps_witness :
  let wrap := sampleLineConfig
                [ "This has type: string"; "Somewhere wanted: option<string>" ] 0
                sampleRange in
  let unwrap := sampleLineConfig
                  [ "This has type: option<string>"; "Somewhere wanted: string" ] 0
                  sampleRange in
  mismatchTypes wrap = ("string", "option<string>")
  /\ (exists codeActions',
        simpleTypeMismatches wrap ∅ = (Normal true, codeActions')
        /\ pushedOnto ∅ codeActions' "src/Demo.res"
             (expectedAction sampleRange sampleDiagnostic "src/Demo.res"
                "Wrap value in Some"
                [ {| range := pointRange 3 4; newText := "Some(" |};
                  {| range := pointRange 3 9; newText := ")" |} ]))
  /\ mismatchTypes unwrap = ("option<string>", "string")
  /\ (exists codeActions',
        simpleTypeMismatches unwrap ∅ = (Normal true, codeActions')
        /\ pushedOnto ∅ codeActions' "src/Demo.res"
             (expectedAction sampleRange sampleDiagnostic "src/Demo.res"
                "Unwrap optional value"
                [ {| range := pointRange 3 4; newText := "switch " |};
                  {| range := pointRange 3 9;
                     newText := " { | None => " +:+ JS.dquote +:+ "-" +:+ JS.dquote
                                +:+ " | Some(v) => v }" |} ])).
Proof.
  cbv zeta. split; [reflexivity|]. split; [|split; [reflexivity|]].
  - apply (proj1 (proj2 (type_mismatch_wraps_or_unwraps
                           (sampleLineConfig
                              [ "This has type: string"; "Somewhere wanted: option<string>" ]
                              0 sampleRange) ∅ eq_refl)));
      [discriminate | reflexivity | reflexivity].
  - apply (proj1 (type_mismatch_wraps_or_unwraps
                    (sampleLineConfig
                       [ "This has type: option<string>"; "Somewhere wanted: string" ]
                       0 sampleRange) ∅ eq_refl)); reflexivity.
Defined.

(** Type names spread over several lines, with a "(defined as" clause and
    trailing commas, are normalised before the comparison. *)
Example mismatchTypes_multiline :
  mismatchTypes
    (sampleLineConfig
       [ "This has type:"; "  option<"; "    array<int>,"; "  > (defined as t)";
         "Somewhere wanted:"; "  array<int>" ] 0 sampleRange)
  = ("option<array<int>>", "array<int>").
Proof. reflexivity. Qed.

(** ** Properties of a whole pass *)

Section PassFacts.

Lemma pushAll_extendedBy (f : string) (added : list foundAction)
    (codeActions : filesCodeActions) :
  extendedBy codeActions (pushAll f added codeActions) f added.
Proof.
  destruct added as [|found added]; [reflexivity|]. split.
  - pose proof (pushAll_entries f added (appended f found codeActions)) as Hentries.
    pose proof (pushAll_arraySlot f added (appended f found codeActions)
                  (appended_arraySlot f found codeActions)) as Hslot.
    change (pushAll f (found :: added) codeActions)
      with (pushAll f added (appended f found codeActions)).
    revert Hentries Hslot. unfold entries at 1, arraySlot.
    destruct (pushAll f added (appended f found codeActions) !! f) as [[arr|key]|] eqn:Hf.
    + intros -> _. rewrite appended_entries. now rewrite <- app_assoc.
    + discriminate.
    + intros Hnil _. rewrite appended_entries in Hnil.
      symmetry in Hnil. apply app_eq_nil in Hnil as [Hcontra _].
      apply app_eq_nil in Hcontra as [_ Hcontra]. discriminate.
  - intros other Hne. apply pushAll_lookup_ne. congruence.
Qed.

(** The whole pass, on a slot that is absent or holds an array. *)
Lemma pass_contribution (cfg : findCodeActionsConfig) :
  exists (added : list foundAction) (errors : list exn),
    (forall codeActions log,
        arraySlot codeActions (file cfg) = true ->
        findCodeActionsInDiagnosticsMessage cfg (codeActions, log)
        = (Normal tt, (pushAll (file cfg) added codeActions, log ++ errors)))
    /\ (length added <= length (diagnosticMessage cfg))%nat
    /\ Forall (actionShape cfg) added.
Proof.
  destruct (forEach_contribution cfg (diagnosticMessage cfg) O (diagnosticMessage cfg))
    as (added & errors & Hrun & Hlen & Hshape & _).
  exists added, errors. split_and!; assumption.
Qed.

(** Whatever the accumulator holds, a pass touches the key of its file only. *)
Lemma pass_other (cfg : findCodeActionsConfig) (g : string) (w : world) :
  g <> file cfg ->
  fst (snd (findCodeActionsInDiagnosticsMessage cfg w)) !! g = fst w !! g.
Proof. intros Hne. destruct w as [codeActions log]. now apply forEach_other. Qed.

(** What a pass leaves under the key of its file depends on what was there. *)
Lemma pass_local (cfg : findCodeActionsConfig) (a b : world) :
  fst a !! file cfg = fst b !! file cfg ->
  fst (snd (findCodeActionsInDiagnosticsMessage cfg a)) !! file cfg
  = fst (snd (findCodeActionsInDiagnosticsMessage cfg b)) !! file cfg.
Proof. destruct a, b. apply forEach_local. Qed.

Lemma forEach_from_quiet (cfg : findCodeActionsConfig) (array : list string)
    (index : nat) (remaining : list string) (w : world) :
  Forall noTrigger remaining ->
  forEach_from
    (fun l i arr => forExtractors codeActionEtractors (extractorConfig cfg l i arr))
    array index remaining w
  = (Normal tt, w).
Proof.
  intros Hnone. revert index. induction Hnone as [|l rest Hl _ IH]; intros index.
  - reflexivity.
  - rewrite forEach_from_cons, forExtractors_quiet; [apply IH|].
    now apply registered_quiet_off_trigger.
Qed.

End PassFacts.

(** X1. On a slot that is absent or holds an array, what a pass adds does
    not depend on what the accumulator holds: for every diagnostic there are
    a list of actions and a list of errors such that, from any such
    accumulator and any log, the dispatcher returns normally, adds exactly
    those actions, in order, at the end of the array of the diagnostic's
    file, changes nothing else and logs exactly those errors. *)
Theorem pass_contribution_is_independent_of_the_accumulator (cfg : findCodeActionsConfig) :
  exists (added : list foundAction) (errors : list exn),
    forall (codeActions : filesCodeActions) (log : list exn),
      arraySlot codeActions (file cfg) = true ->
      exists codeActions',
        findCodeActionsInDiagnosticsMessage cfg (codeActions, log)
        = (Normal tt, (codeActions', log ++ errors))
        /\ extendedBy codeActions codeActions' (file cfg) added.
Proof.
  destruct (pass_contribution cfg) as (added & errors & Hrun & _).
  exists added, errors. intros codeActions log Hslot.
  exists (pushAll (file cfg) added codeActions).
  split; [now apply Hrun | apply pushAll_extendedBy].
Qed.

Lemma pass_contribution_is_independent_of_the_accumulator_witness :
  let cfg := sampleConfig [ "Hint: Did you mean foo" ] sampleRange in
  exists (added : list foundAction) (errors : list exn) (codeActions' : filesCodeActions),
    findCodeActionsInDiagnosticsMessage cfg (∅, []) = (Normal tt, (codeActions', [] ++ errors))
    /\ extendedBy ∅ codeActions' "src/Demo.res" added.
Proof.
  cbv zeta.
  destruct (pass_contribution_is_independent_of_the_accumulator
              (sampleConfig [ "Hint: Did you mean foo" ] sampleRange))
    as (added & errors & Hrun).
  destruct (Hrun ∅ []) as (codeActions' & Hpass & Hadded); [reflexivity|].
  exists added, errors, codeActions'. split; [exact Hpass | exact Hadded].
Defined.

(** X2. The accumulator is append-only. Whatever it holds, a pass leaves the
    entries of every other file as they were; and when the slot of the
    diagnostic's file is absent or holds an array, it still is afterwards,
    and the array of that file is the old array followed by the new actions,
    at most one per line of the message. *)
Theorem accumulator_is_append_only
    (cfg : findCodeActionsConfig) (codeActions : filesCodeActions) (log : list exn) :
  let codeActions' := fst (snd (findCodeActionsInDiagnosticsMessage cfg (codeActions, log))) in
  delete (file cfg) codeActions' = delete (file cfg) codeActions
  /\ (arraySlot codeActions (file cfg) = true ->
      arraySlot codeActions' (file cfg) = true
      /\ exists added,
           extendedBy codeActions codeActions' (file cfg) added
           /\ entries codeActions' (file cfg) = entries codeActions (file cfg) ++ added
           /\ (length added <= length (diagnosticMessage cfg))%nat).
Proof.
  cbv zeta. split.
  - apply map_eq. intros g. destruct (decide (g = file cfg)) as [->|Hne].
    + now rewrite !lookup_delete_eq.
    + rewrite !lookup_delete_ne by congruence.
      now apply (pass_other cfg g (codeActions, log)).
  - intros Hslot.
    destruct (pass_contribution cfg) as (added & errors & Hrun & Hlen & _).
    rewrite (Hrun codeActions log Hslot). cbn [fst snd].
    split; [now apply pushAll_arraySlot|].
    exists added. split_and!;
      [apply pushAll_extendedBy | apply pushAll_entries | exact Hlen].
Qed.

Lemma accumulator_is_append_only_witness :
  let cfg := sampleConfig
               [ "Hint: Did you mean foo";
                 "You can convert int to float with Belt.Int.toFloat." ] sampleRange in
  let codeActions' := fst (snd (findCodeActionsInDiagnosticsMessage cfg (∅, []))) in
  arraySlot codeActions' "src/Demo.res" = true
  /\ exists added,
       extendedBy ∅ codeActions' "src/Demo.res" added
       /\ entries codeActions' "src/Demo.res" = entries ∅ "src/Demo.res" ++ added
       /\ (length added <= length (diagnosticMessage cfg))%nat.
Proof.
  cbv zeta.
  apply (proj2 (accumulator_is_append_only
                  (sampleConfig
                     [ "Hint: Did you mean foo";
                       "You can convert int to float with Belt.Int.toFloat." ] sampleRange)
                  ∅ [])).
  reflexivity.
Defined.

(** X3. Passes for diagnostics of two different files commute: the
    accumulator is the same whichever diagnostic is processed first. *)
Theorem passes_for_different_files_commute
    (cfg1 cfg2 : findCodeActionsConfig) (w : world) :
  file cfg1 <> file cfg2 ->
  fst (snd (findCodeActionsInDiagnosticsMessage cfg2
              (snd (findCodeActionsInDiagnosticsMessage cfg1 w))))
  = fst (snd (findCodeActionsInDiagnosticsMessage cfg1
                (snd (findCodeActionsInDiagnosticsMessage cfg2 w)))).
Proof.
  intros Hne. apply map_eq. intros g.
  destruct (decide (g = file cfg1)) as [->|Hne1].
  - rewrite pass_other by congruence.
    apply pass_local. now rewrite pass_other by congruence.
  - destruct (decide (g = file cfg2)) as [->|Hne2].
    + rewrite (pass_other cfg1) by congruence.
      apply pass_local. now rewrite pass_other by congruence.
    + now rewrite !pass_other by congruence.
Qed.

Lemma passes_for_different_files_commute_witness :
  let cfg1 := sampleConfig [ "Hint: Did you mean foo" ] sampleRange in
  let cfg2 := otherSampleConfig
                [ "You can convert int to float with Belt.Int.toFloat." ] sampleRange in
  fst (snd (findCodeActionsInDiagnosticsMessage cfg2
              (snd (findCodeActionsInDiagnosticsMessage cfg1 (∅, [])))))
  = fst (snd (findCodeActionsInDiagnosticsMessage cfg1
                (snd (findCodeActionsInDiagnosticsMessage cfg2 (∅, []))))).
Proof.
  cbv zeta.
  apply (passes_for_different_files_commute
           (sampleConfig [ "Hint: Did you mean foo" ] sampleRange)
           (otherSampleConfig
              [ "You can convert int to float with Belt.Int.toFloat." ] sampleRange)
           (∅, [])).
  simpl. discriminate.
Defined.

(** X4. On a slot that is absent or holds an array, every action a pass adds
    to the array of the file is a preferred quick fix for the diagnostic at
    hand: its range is the range of the diagnostic, its diagnostics are that
    one diagnostic, and its edits concern the file of the diagnostic and no
    other. *)
Theorem pushed_actions_belong_to_the_diagnostic
    (cfg : findCodeActionsConfig) (codeActions : filesCodeActions) (log : list exn) :
  arraySlot codeActions (file cfg) = true ->
  let codeActions' := fst (snd (findCodeActionsInDiagnosticsMessage cfg (codeActions, log))) in
  exists added,
    extendedBy codeActions codeActions' (file cfg) added
    /\ entries codeActions' (file cfg) = entries codeActions (file cfg) ++ added
    /\ Forall (fun found =>
                 found_range found = frange cfg
                 /\ diagnostics (codeAction found) = [diagnostic cfg]
                 /\ kind (codeAction found) = QuickFix
                 /\ isPreferred (codeAction found) = true
                 /\ dom (changes (edit (codeAction found))) = {[ file cfg ]}) added.
Proof.
  intros Hslot.
  destruct (pass_contribution cfg) as (added & errors & Hrun & _ & Hshape).
  cbv zeta. rewrite (Hrun codeActions log Hslot). cbn [fst snd].
  exists added. split_and!; [apply pushAll_extendedBy | apply pushAll_entries |].
  eapply Forall_impl; [exact Hshape|].
  intros found (ttl & edits & -> & _). simpl. split_and!; try reflexivity.
  apply dom_singleton_L.
Qed.

Lemma pushed_actions_belong_to_the_diagnostic_witness :
  let cfg := sampleConfig
               [ "This has type: string"; "Somewhere wanted: option<string>" ] sampleRange in
  let codeActions' := fst (snd (findCodeActionsInDiagnosticsMessage cfg (∅, []))) in
  exists added,
    extendedBy ∅ codeActions' "src/Demo.res" added
    /\ entries codeActions' "src/Demo.res" = entries ∅ "src/Demo.res" ++ added
    /\ Forall (fun found =>
                 found_range found = sampleRange
                 /\ diagnostics (codeAction found) = [sampleDiagnostic]
                 /\ kind (codeAction found) = QuickFix
                 /\ isPreferred (codeAction found) = true
                 /\ dom (changes (edit (codeAction found))) = {[ "src/Demo.res" ]}) added.
Proof.
  cbv zeta.
  apply (pushed_actions_belong_to_the_diagnostic
           (sampleConfig
              [ "This has type: string"; "Somewhere wanted: option<string>" ] sampleRange)
           ∅ []).
  reflexivity.
Defined.

(** X5. On a slot that is absent or holds an array, a pass never deletes
    text outside the diagnosed range: the edits of every action it adds to
    the array of the file are either one replacement of the range of the
    diagnostic, or insertions only (every edit range is a point). *)
Theorem pushed_edits_replace_the_range_or_insert
    (cfg : findCodeActionsConfig) (codeActions : filesCodeActions) (log : list exn) :
  arraySlot codeActions (file cfg) = true ->
  let codeActions' := fst (snd (findCodeActionsInDiagnosticsMessage cfg (codeActions, log))) in
  exists added,
    extendedBy codeActions codeActions' (file cfg) added
    /\ entries codeActions' (file cfg) = entries codeActions (file cfg) ++ added
    /\ Forall (fun found =>
                 exists edits,
                   changes (edit (codeAction found)) = {[ file cfg := edits ]}
                   /\ ((exists text, edits = [ {| range := frange cfg; newText := text |} ])
                       \/ Forall (fun e => start (range e) = end_ (range e)) edits)) added.
Proof.
  intros Hslot.
  destruct (pass_contribution cfg) as (added & errors & Hrun & _ & Hshape).
  cbv zeta. rewrite (Hrun codeActions log Hslot). cbn [fst snd].
  exists added. split_and!; [apply pushAll_extendedBy | apply pushAll_entries |].
  eapply Forall_impl; [exact Hshape|].
  intros found (ttl & edits & -> & Hedits). exists edits. split; [reflexivity | exact Hedits].
Qed.

Lemma pushed_edits_replace_the_range_or_insert_witness :
  let cfg := sampleConfig
               [ "Hint: Did you mean foo";
                 "You can convert int to float with Belt.Int.toFloat." ] sampleRange in
  let codeActions' := fst (snd (findCodeActionsInDiagnosticsMessage cfg (∅, []))) in
  exists added,
    extendedBy ∅ codeActions' "src/Demo.res" added
    /\ entries codeActions' "src/Demo.res" = entries ∅ "src/Demo.res" ++ added
    /\ Forall (fun found =>
                 exists edits,
                   changes (edit (codeAction found)) = {[ "src/Demo.res" := edits ]}
                   /\ ((exists text, edits = [ {| range := sampleRange; newText := text |} ])
                       \/ Forall (fun e => start (range e) = end_ (range e)) edits)) added.
Proof.
  cbv zeta.
  apply (pushed_edits_replace_the_range_or_insert
           (sampleConfig
              [ "Hint: Did you mean foo";
                "You can convert int to float with Belt.Int.toFloat." ] sampleRange)
           ∅ []).
  reflexivity.
Defined.

(** X6. A message without a trigger line changes nothing: when no line
    starts with one of the six literals the extractors look for, the pass
    leaves the accumulator and the log as they were. *)
Theorem message_without_trigger_changes_nothing (cfg : findCodeActionsConfig) (w : world) :
  Forall noTrigger (diagnosticMessage cfg) ->
  findCodeActionsInDiagnosticsMessage cfg w = (Normal tt, w).
Proof.
  intros Hnone.
  unfold findCodeActionsInDiagnosticsMessage, findCodeActionsWith, forEach.
  now apply forEach_from_quiet.
Qed.

Lemma message_without_trigger_changes_nothing_witness :
  findCodeActionsInDiagnosticsMessage
    (sampleConfig [ "The value fooo can't be found"; EmptyString; "  Hint: Did you mean foo" ]
       sampleRange) (∅, [])
  = (Normal tt, (∅, [])).
Proof.
  apply (message_without_trigger_changes_nothing
           (sampleConfig
              [ "The value fooo can't be found"; EmptyString; "  Hint: Did you mean foo" ]
              sampleRange) (∅, [])).
  simpl. unfold noTrigger, registeredTriggers.
  repeat (apply List.Forall_cons || apply List.Forall_nil); reflexivity.
Defined.

(** X7. The order of the extractors is immaterial. The triggers exclude one
    another, so on every line at most one extractor reacts: the loop over any
    rearrangement of the six registered extractors leaves the same
    accumulator and the same log as the loop over the registered list. *)
Theorem order_of_extractors_is_immaterial
    (extractors : list codeActionExtractor) (cfg : codeActionExtractorConfig) (w : world) :
  Permutation extractors codeActionEtractors ->
  forExtractors extractors cfg w = forExtractors codeActionEtractors cfg w.
Proof.
  intros Hperm.
  destruct (at_most_one_extractor_reacts registeredTriggers cfg
              registeredTriggers_outcome registeredTriggers_incomparable)
    as [Hall | (before & ex & after & o & Heq & Hothers & Ho)];
    change (map snd registeredTriggers) with codeActionEtractors in *.
  - rewrite !forExtractors_quiet; [reflexivity | assumption |].
    eapply Permutation_Forall; [symmetry; exact Hperm | assumption].
  - rewrite Heq in Hperm |- *.
    assert (Hin : In ex extractors).
    { eapply Permutation_in; [symmetry; exact Hperm|]. apply in_elt. }
    apply in_split in Hin as (before' & after' & ->).
    apply Permutation_app_inv in Hperm.
    assert (Hothers' : Forall (quiet cfg) (before' ++ after'))
      by (eapply Permutation_Forall; [symmetry; exact Hperm | assumption]).
    apply Forall_app in Hothers as [Hb Ha]. apply Forall_app in Hothers' as [Hb' Ha'].
    now rewrite !(forExtractors_single _ _ ex cfg o).
Qed.

Lemma order_of_extractors_is_immaterial_witness :
  let cfg := sampleLineConfig [ "Hint: Did you mean foo" ] 0 sampleRange in
  forExtractors (rev codeActionEtractors) cfg (∅, [])
  = forExtractors codeActionEtractors cfg (∅, []).
Proof.
  cbv zeta.
  apply (order_of_extractors_is_immaterial (rev codeActionEtractors)
           (sampleLineConfig [ "Hint: Did you mean foo" ] 0 sampleRange) (∅, [])).
  symmetry. apply Permutation_rev.
Defined.

(** ** Type names *)

(** X8. [takeUntil] returns the longest leading part of the array in which
    no line starts with the marker: the array is that part followed by a
    rest that is empty or begins with a line starting with the marker. *)
Theorem takeUntil_is_the_part_before_the_marker (array : list string) (marker : string) :
  exists rest,
    array = takeUntil array marker ++ rest
    /\ Forall (fun l => JS.startsWith l marker = false) (takeUntil array marker)
    /\ match rest with
       | [] => True
       | l :: _ => JS.startsWith l marker = true
       end.
Proof.
  induction array as [|l array (rest & Heq & Hnone & Hrest)].
  - exists []. repeat split. constructor.
  - simpl. destruct (JS.startsWith l marker) eqn:Hl.
    + exists (l :: array). repeat split; [constructor | exact Hl].
    + exists rest. split; [simpl; now rewrite <- Heq|]. split; [now constructor | exact Hrest].
Qed.

(** X9. [extractTypename] stops at the first line that includes
    "(defined as": the lines after it do not contribute to the type name. *)
Theorem extractTypename_ignores_lines_after_defined_as
    (before : list string) (definedAs : string) (after : list string) :
  JS.includes definedAs "(defined as" = true ->
  extractTypename (before ++ definedAs :: after) = extractTypename (before ++ [definedAs]).
Proof.
  intros Hdef. unfold extractTypename. f_equal. f_equal.
  induction before as [|l before IH]; simpl.
  - now rewrite Hdef.
  - destruct (JS.includes l "(defined as"); [reflexivity | now rewrite IH].
Qed.

Lemma extractTypename_ignores_lines_after_defined_as_witness :
  extractTypename [ " option<"; "  array<int>,"; "> (defined as t)"; "unrelated" ]
  = "option<array<int>>".
Proof.
  etransitivity;
    [ apply (extractTypename_ignores_lines_after_defined_as
               [ " option<"; "  array<int>," ] "> (defined as t)" [ "unrelated" ] eq_refl)
    | reflexivity ].
Defined.

Section MismatchTypes.

Lemma takeUntil_app_marker (before : list string) (markerLine : string)
    (after : list string) (marker : string) :
  Forall (fun l => JS.startsWith l marker = false) before ->
  JS.startsWith markerLine marker = true ->
  takeUntil (before ++ markerLine :: after) marker = before.
Proof.
  intros Hbefore Hmarker. induction Hbefore as [|l before Hl _ IH]; simpl.
  - now rewrite Hmarker.
  - now rewrite Hl, IH.
Qed.

End MismatchTypes.

(** X10. On a message laid out as the extractor expects (the trigger line,
    then lines of the actual type, then the first line that starts with
    "Somewhere wanted:" and what follows it), the actual type is read from
    the rest of the trigger line and the lines up to the marker line, and the
    wanted type from the marker line, without its marker, and all lines after
    it: [index + thisHasTypeArr.length] is the index of the marker line. *)
Theorem mismatchTypes_splits_at_the_marker
    (cfg : codeActionExtractorConfig)
    (before between after : list string) (trigger markerLine : string) :
  cfg_array cfg = before ++ trigger :: between ++ markerLine :: after ->
  cfg_index cfg = length before ->
  cfg_line cfg = trigger ->
  JS.startsWith (JS.sliceFrom trigger 14) "Somewhere wanted:" = false ->
  Forall (fun l => JS.startsWith l "Somewhere wanted:" = false) between ->
  JS.startsWith markerLine "Somewhere wanted:" = true ->
  mismatchTypes cfg
  = (extractTypename (JS.sliceFrom trigger 14 :: between),
     extractTypename
       (map (fun l => JS.replace l "Somewhere wanted:" EmptyString) (markerLine :: after))).
Proof.
  intros Harray Hindex Hline Hrest Hbetween Hmarker. unfold mismatchTypes.
  rewrite Harray, Hindex, Hline. unfold JS.arraySlice.
  assert (Hfollowing : skipn (length before + 1)
                         (before ++ trigger :: between ++ markerLine :: after)
                       = between ++ markerLine :: after)
    by (now rewrite drop_app_add).
  rewrite Hfollowing.
  change (Z.of_nat (String.length "This has type:")) with 14.
  rewrite (takeUntil_app_marker (JS.sliceFrom trigger 14 :: between) markerLine after)
    by (try constructor; assumption).
  assert (Hwanted : skipn (length before + length (JS.sliceFrom trigger 14 :: between))
                      (before ++ trigger :: between ++ markerLine :: after)
                    = markerLine :: after).
  { rewrite drop_app_add. simpl. now rewrite drop_app_length. }
  now rewrite Hwanted.
Qed.

Lemma mismatchTypes_splits_at_the_marker_witness :
  mismatchTypes
    (sampleLineConfig
       [ "We've found a bug for you!"; "This has type:"; "  option<"; "    int,"; "  >";
         "Somewhere wanted: int"; "unrelated" ] 1 sampleRange)
  = ("option<int>", "intunrelated").
Proof.
  rewrite (mismatchTypes_splits_at_the_marker
             (sampleLineConfig
                [ "We've found a bug for you!"; "This has type:"; "  option<"; "    int,";
                  "  >"; "Somewhere wanted: int"; "unrelated" ] 1 sampleRange)
             [ "We've found a bug for you!" ] [ "  option<"; "    int,"; "  >" ] [ "unrelated" ]
             "This has type:" "Somewhere wanted: int");
    try reflexivity.
  repeat (apply List.Forall_cons || apply List.Forall_nil); reflexivity.
Defined.

(** ** Normalising match patterns *)

Section Patterns.

Lemma includes_false_countChar (s : string) (c : ascii) :
  JS.includes s (String c EmptyString) = false -> JS.countChar s c = O.
Proof.
  induction s as [|x s IH]; [reflexivity|].
  rewrite includes_char_cons. intros [Hx Hs]%orb_false_elim. simpl.
  rewrite (IH Hs). rewrite Ascii.eqb_sym, Hx. reflexivity.
Qed.

Lemma countChar_append (a b : string) (c : ascii) :
  JS.countChar (a +:+ b) c = (JS.countChar a c + JS.countChar b c)%nat.
Proof.
  induction a as [|x a IH]; [reflexivity|].
  rewrite append_cons. simpl. rewrite IH. lia.
Qed.

Lemma replaceAllChar_append (a b : string) (c d : ascii) :
  JS.replaceAllChar (a +:+ b) c d = JS.replaceAllChar a c d +:+ JS.replaceAllChar b c d.
Proof.
  induction a as [|x a IH]; [reflexivity|].
  rewrite append_cons. simpl. now rewrite IH.
Qed.

(** Splitting on one character keeps every other character out of the
    pieces that the text does not hold. *)
Lemma split_go_pieces_exclude (c e : ascii) (s cur : string) :
  JS.includes s (String e EmptyString) = false ->
  JS.includes cur (String e EmptyString) = false ->
  Forall (fun piece => JS.includes piece (String e EmptyString) = false)
         (JS.split_go (String c EmptyString) O cur s).
Proof.
  revert cur. induction s as [|x s IH]; intros cur Hs Hcur.
  - simpl. now constructor.
  - rewrite includes_char_cons in Hs. apply orb_false_elim in Hs as [Hx Hs].
    simpl. destruct (ascii_dec c x) as [->|Hne].
    + rewrite prefix_empty. constructor; [assumption|]. now apply IH.
    + apply IH; [assumption|].
      now rewrite includes_char_append, Hcur, includes_char_cons, Hx.
Qed.

Lemma split_go_skip_piece (c : ascii) (piece rest cur : string) :
  JS.includes piece (String c EmptyString) = false ->
  JS.split_go (String c EmptyString) O cur (piece +:+ rest)
  = JS.split_go (String c EmptyString) O (cur +:+ piece) rest.
Proof.
  revert cur. induction piece as [|x piece IH]; intros cur Hpiece.
  - now rewrite append_nil_l, append_nil_r.
  - rewrite includes_char_cons in Hpiece. apply orb_false_elim in Hpiece as [Hx Hpiece].
    rewrite append_cons. simpl. destruct (ascii_dec c x) as [->|Hne].
    + now rewrite Ascii.eqb_refl in Hx.
    + rewrite IH by assumption. now rewrite append_assoc.
Qed.

Lemma split_two_pieces (c : ascii) (first second : string) :
  JS.includes first (String c EmptyString) = false ->
  JS.includes second (String c EmptyString) = false ->
  JS.split (first +:+ String c second) (String c EmptyString) = [first; second].
Proof.
  intros Hfirst Hsecond. unfold JS.split.
  rewrite split_go_skip_piece, append_nil_l by assumption.
  simpl. destruct (ascii_dec c c); [|congruence]. rewrite prefix_empty.
  rewrite <- (append_nil_r second) at 1.
  now rewrite split_go_skip_piece by assumption.
Qed.

Lemma transformMatchPattern_rejects_paren (s : string) :
  JS.includes s "(" = true -> transformMatchPattern s = None.
Proof.
  intros Hp. pose proof (transformMatchPattern_unfold s) as Heq.
  unfold transformMatchPattern_body in Heq. rewrite Hp in Heq. simpl in Heq. congruence.
Qed.

(** A pattern without parenthesis, brace and space only has its backticks
    rewritten. *)
Lemma transformMatchPattern_plain (s : string) :
  JS.includes s "(" = false -> JS.includes s "{" = false -> JS.includes s " " = false ->
  transformMatchPattern s = Some (JS.replaceAllChar s "`" "#").
Proof.
  intros Hp Hb Hs. pose proof (transformMatchPattern_unfold s) as Heq.
  unfold transformMatchPattern_body in Heq. rewrite Hp, Hb in Heq. simpl in Heq.
  rewrite countChar_replaceAllChar, (includes_false_countChar _ _ Hs) in Heq by discriminate.
  simpl in Heq. rewrite includes_replaceAllChar, Hs in Heq by discriminate.
  congruence.
Qed.

End Patterns.

(** X11. [transformMatchPattern] returns null exactly when the pattern
    includes an opening parenthesis, or an opening brace, or three or more
    spaces; every other pattern is normalised. *)
Theorem transformMatchPattern_null_exactly_when (matchPattern : string) :
  transformMatchPattern matchPattern = None
  <-> JS.includes matchPattern "(" = true
      \/ JS.includes matchPattern "{" = true
      \/ (3 <= JS.countChar matchPattern " ")%nat.
Proof.
  split.
  - intros Hnull.
    destruct (JS.includes matchPattern "(") eqn:Hp; [now left|].
    destruct (JS.includes matchPattern "{") eqn:Hb; [now right; left|].
    right. right.
    pose proof (transformMatchPattern_unfold matchPattern) as Heq.
    unfold transformMatchPattern_body in Heq. rewrite Hp, Hb, Hnull in Heq. simpl in Heq.
    rewrite countChar_replaceAllChar in Heq by discriminate.
    destruct (2 <? JS.countChar matchPattern " ")%nat eqn:Hcount;
      [now apply Nat.ltb_lt in Hcount|].
    exfalso.
    destruct (JS.includes (JS.replaceAllChar matchPattern "`" "#") " ") eqn:Hspace;
      [|discriminate].
    pose proof (split_char_pieces " " (JS.replaceAllChar matchPattern "`" "#")) as Hsp.
    assert (Hnp : Forall (fun piece => JS.includes piece "(" = false)
                    (JS.split (JS.replaceAllChar matchPattern "`" "#") " "))
      by (apply split_go_pieces_exclude;
          [now rewrite includes_replaceAllChar by discriminate | reflexivity]).
    assert (Hnb : Forall (fun piece => JS.includes piece "{" = false)
                    (JS.split (JS.replaceAllChar matchPattern "`" "#") " "))
      by (apply split_go_pieces_exclude;
          [now rewrite includes_replaceAllChar by discriminate | reflexivity]).
    destruct (split_char_two " " _ Hspace) as (v & p & others & Hsplit).
    rewrite Hsplit in *.
    apply Forall_cons in Hsp as [_ [Hsp _]%Forall_cons].
    apply Forall_cons in Hnp as [_ [Hnp _]%Forall_cons].
    apply Forall_cons in Hnb as [_ [Hnb _]%Forall_cons].
    rewrite (transformMatchPattern_plain p Hnp Hnb Hsp) in Heq. discriminate.
  - intros [Hp | [Hb | Hcount]].
    + now apply transformMatchPattern_rejects_paren.
    + now apply transformMatchPattern_rejects_brace.
    + now apply transformMatchPattern_rejects_three_spaces.
Qed.

(** X12. A constructor and its payload, separated by one space and free of
    parentheses, braces and further spaces, are rewritten into call syntax
    with every backtick turned into a hash: [Ctor payload] becomes
    [Ctor(payload)]. *)
Theorem transformMatchPattern_wraps_the_payload (variant payload : string) :
  JS.includes (variant +:+ " " +:+ payload) "(" = false ->
  JS.includes (variant +:+ " " +:+ payload) "{" = false ->
  JS.includes variant " " = false ->
  JS.includes payload " " = false ->
  transformMatchPattern (variant +:+ " " +:+ payload)
  = Some (JS.replaceAllChar variant "`" "#" +:+ "("
          +:+ JS.replaceAllChar payload "`" "#" +:+ ")").
Proof.
  intros Hp Hb Hv Hpl.
  pose proof (transformMatchPattern_unfold (variant +:+ " " +:+ payload)) as Heq.
  unfold transformMatchPattern_body in Heq. rewrite Hp, Hb in Heq. simpl orb in Heq.
  cbv iota zeta in Heq.
  rewrite !replaceAllChar_append in Heq.
  change (JS.replaceAllChar " " "`" "#") with " " in Heq.
  set (v := JS.replaceAllChar variant "`" "#") in *.
  set (p := JS.replaceAllChar payload "`" "#") in *.
  assert (Hv' : JS.includes v " " = false)
    by (unfold v; now rewrite includes_replaceAllChar by discriminate).
  assert (Hp' : JS.includes p " " = false)
    by (unfold p; now rewrite includes_replaceAllChar by discriminate).
  rewrite !countChar_append, (includes_false_countChar _ _ Hv'),
    (includes_false_countChar _ _ Hp') in Heq.
  change (2 <? 0 + (JS.countChar " " " " + 0))%nat with false in Heq.
  rewrite !includes_char_append in Heq.
  rewrite Hv', Hp' in Heq.
  change (false || (JS.includes " " " " || false)) with true in Heq. cbv iota in Heq.
  change (v +:+ " " +:+ p) with (v +:+ String " " p) in Heq.
  rewrite (split_two_pieces " " v p Hv' Hp') in Heq.
  rewrite !includes_char_append in Hp, Hb.
  apply orb_false_elim in Hp as [_ [_ Hp]%orb_false_elim].
  apply orb_false_elim in Hb as [_ [_ Hb]%orb_false_elim].
  assert (Hplain : transformMatchPattern p = Some (JS.replaceAllChar p "`" "#")).
  { apply transformMatchPattern_plain; [| |assumption];
      unfold p; now rewrite includes_replaceAllChar by discriminate. }
  rewrite Hplain in Heq. congruence.
Qed.

Lemma transformMatchPattern_wraps_the_payload_witness :
  transformMatchPattern "`One _" = Some "#One(_)".
Proof.
  apply (transformMatchPattern_wraps_the_payload "`One" "_"); reflexivity.
Defined.

(** ** Layout of the inserted match arms *)

Section ArmsLayout.

Lemma concat_snoc (sep : string) (l : list string) (lastLine : string) :
  l <> [] ->
  String.concat sep l +:+ sep +:+ lastLine = String.concat sep (l ++ [lastLine]).
Proof.
  induction l as [|x l IH]; [congruence|]. intros _.
  destruct l as [|y l]; [reflexivity|].
  change ((x :: y :: l) ++ [lastLine]) with (x :: y :: (l ++ [lastLine])).
  rewrite !concat_cons_cons, !append_assoc. do 2 f_equal.
  now apply IH.
Qed.

Lemma concat_indent_first (sep indent x : string) (l : list string) :
  indent +:+ String.concat sep (x :: l) = String.concat sep ((indent +:+ x) :: l).
Proof.
  destruct l as [|y l]; [reflexivity|]. now rewrite !concat_cons_cons, append_assoc.
Qed.

Lemma missingCasesText_layout (r : Range) (variant : string) (variants : list string) :
  1 <= character (end_ r) ->
  let c := Z.to_nat (character (end_ r) - 1) in
  missingCasesText r (variant :: variants)
  = String.concat JS.nl
      (("| " +:+ variant +:+ " => assert false")
         :: map (fun v => spaces c +:+ "| " +:+ v +:+ " => assert false") variants)
    +:+ JS.nl +:+ spaces c.
Proof.
  intros Hc c. unfold missingCasesText.
  rewrite arrayFromLengthJoin_spaces by assumption. fold c.
  unfold JS.join. simpl imap.
  rewrite (imap_ext _ (const (fun v => spaces c +:+ "| " +:+ v +:+ " => assert false")))
    by reflexivity.
  now rewrite imap_const.
Qed.

End ArmsLayout.

(** X13. For every list of missing cases the exhaustiveness extractor finds,
    with the closing delimiter at column [c] (the last column of the range)
    and a slot of the file that is absent or holds an array: the extractor
    reports a match and stores one action at the end of the array of the
    file, whose single edit is an insertion at column [c] of the last line
    which, with [c] characters of indentation before it and the closing
    delimiter after it, yields one arm [| case => assert false] per case,
    each on its own line behind [c] spaces, and then the closing delimiter on
    a line of its own behind [c] spaces. *)
Theorem missing_cases_are_laid_out_one_per_line
    (cfg : codeActionExtractorConfig) (codeActions : filesCodeActions) (closing : string) :
  JS.startsWith (cfg_line cfg) "You forgot to handle a possible case here, for example:"
  = true ->
  JS.includes (allCasesAsOneLine cfg) "(" = false ->
  missingCases (allCasesAsOneLine cfg) <> [] ->
  1 <= character (end_ (cfg_range cfg)) ->
  arraySlot codeActions (cfg_file cfg) = true ->
  let c := Z.to_nat (character (end_ (cfg_range cfg)) - 1) in
  exists text codeActions',
    simpleAddMissingCases cfg codeActions = (Normal true, codeActions')
    /\ pushedOnto codeActions codeActions' (cfg_file cfg)
         (expectedAction (cfg_range cfg) (cfg_diagnostic cfg) (cfg_file cfg)
            "Insert missing cases"
            [ {| range := pointRange (line (end_ (cfg_range cfg))) (Z.of_nat c);
                 newText := text |} ])
    /\ spaces c +:+ text +:+ closing
       = String.concat JS.nl
           (map (fun v => spaces c +:+ "| " +:+ v +:+ " => assert false")
                (missingCases (allCasesAsOneLine cfg))
            ++ [spaces c +:+ closing]).
Proof.
  intros Hstart Hparen Hcases Hc Hslot.
  set (c := Z.to_nat (character (end_ (cfg_range cfg)) - 1)). cbv zeta.
  exists (missingCasesText (cfg_range cfg) (missingCases (allCasesAsOneLine cfg))).
  destruct (pushes_expected cfg "Insert missing cases"
              [ {| range := pointRange (line (end_ (cfg_range cfg))) (Z.of_nat c);
                   newText := missingCasesText (cfg_range cfg)
                                (missingCases (allCasesAsOneLine cfg)) |} ]
              codeActions Hslot) as (codeActions' & Hrun & Hstored).
  exists codeActions'. split_and!; [|exact Hstored|].
  - unfold simpleAddMissingCases. rewrite Hstart, Hparen. rewrite <- Hrun.
    destruct (missingCases (allCasesAsOneLine cfg)) as [|v vs]; [congruence|].
    simpl length. simpl Nat.eqb. cbv iota.
    unfold insertBeforeEndingChar, pointRange.
    replace (Z.of_nat c) with (character (end_ (cfg_range cfg)) - 1) by (unfold c; lia).
    reflexivity.
  - destruct (missingCases (allCasesAsOneLine cfg)) as [|v vs]; [congruence|].
    rewrite missingCasesText_layout by assumption. fold c.
    rewrite !append_assoc, <- (append_assoc (spaces c)), concat_indent_first.
    now rewrite concat_snoc by discriminate.
Qed.

Lemma missing_cases_are_laid_out_one_per_line_witness :
  let cfg := sampleLineConfig
               [ "You forgot to handle a possible case here, for example:";
                 "(`One _|`Two _|"; "`Three _)" ] 0 sampleMultilineRange in
  exists text codeActions',
    simpleAddMissingCases cfg ∅ = (Normal true, codeActions')
    /\ pushedOnto ∅ codeActions' "src/Demo.res"
         (expectedAction sampleMultilineRange sampleDiagnostic "src/Demo.res"
            "Insert missing cases"
            [ {| range := pointRange 5 2; newText := text |} ])
    /\ "  " +:+ text +:+ "}"
       = String.concat JS.nl
           [ "  | #One(_) => assert false"; "  | #Two(_) => assert false";
             "  | #Three(_) => assert false"; "  }" ].
Proof.
  cbv zeta.
  apply (missing_cases_are_laid_out_one_per_line
           (sampleLineConfig
              [ "You forgot to handle a possible case here, for example:";
                "(`One _|`Two _|"; "`Three _)" ] 0 sampleMultilineRange) ∅ "}");
    [reflexivity | reflexivity | discriminate | simpl; lia | reflexivity].
Defined.

(** X14. The example text loses its first and its last character whatever
    they are. When the trimmed text is one character, a text free of
    parentheses, braces, spaces and bars, and one more character, the only
    case is that inner text with its backticks rewritten; so an example that
    is not wrapped in parentheses loses its first and last letter. *)
Theorem example_text_loses_its_first_and_last_character
    (cfg : codeActionExtractorConfig) (opening closing : ascii) (inner : string) :
  JS.trim (JS.join (JS.arraySlice (cfg_array cfg) (cfg_index cfg + 1)) EmptyString)
  = String opening (inner +:+ String closing EmptyString) ->
  JS.includes inner "(" = false ->
  JS.includes inner "{" = false ->
  JS.includes inner " " = false ->
  JS.includes inner "|" = false ->
  allCasesAsOneLine cfg = inner
  /\ missingCases (allCasesAsOneLine cfg) = [ JS.replaceAllChar inner "`" "#" ].
Proof.
  intros Htrim Hp Hb Hs Hbar.
  assert (Hinner : allCasesAsOneLine cfg = inner)
    by (unfold allCasesAsOneLine; cbv zeta; now rewrite Htrim, slice_strip_ends).
  split; [exact Hinner|].
  rewrite Hinner. unfold missingCases. rewrite Hbar.
  now rewrite transformMatchPattern_plain.
Qed.

Lemma example_text_loses_its_first_and_last_character_witness :
  let cfg := sampleLineConfig
               [ "You forgot to handle a possible case here, for example:";
                 "`AnotherValue" ] 0 sampleMultilineRange in
  allCasesAsOneLine cfg = "AnotherValu"
  /\ missingCases (allCasesAsOneLine cfg) = [ "AnotherValu" ].
Proof.
  cbv zeta.
  apply (example_text_loses_its_first_and_last_character
           (sampleLineConfig
              [ "You forgot to handle a possible case here, for example:";
                "`AnotherValue" ] 0 sampleMultilineRange) "`"%char "e"%char "AnotherValu");
    reflexivity.
Defined.

(** ** The end of a conversion line *)

(** X15. The last character of a conversion line need not be a period: the
    expression ends in an unescaped dot, so whatever character ends the line
    (other than a line terminator) is dropped and what precedes it is taken as
    the function. On a slot of the file that is absent or holds an array the
    extractor then reports a match and stores one action that wraps the range
    in a call of that function; a line without the final period thus loses
    the last letter of the function name. *)
Theorem conversion_drops_the_last_character
    (cfg : codeActionExtractorConfig) (codeActions : filesCodeActions)
    (A B fn : string) (lastChar : ascii) :
  cfg_line cfg
  = "You can convert " +:+ A +:+ " to " +:+ B +:+ " with " +:+ fn
    +:+ String lastChar EmptyString ->
  allChars Regex.isWord A = true ->
  allChars Regex.isWord B = true ->
  allChars Regex.isWordOrDot fn = true ->
  Regex.isLineTerminator lastChar = false ->
  arraySlot codeActions (cfg_file cfg) = true ->
  let r := cfg_range cfg in
  let shift := if decide (start r = end_ r) then 1 else 0 in
  exists codeActions',
    simpleConversion cfg codeActions = (Normal true, codeActions')
    /\ pushedOnto codeActions codeActions' (cfg_file cfg)
         (expectedAction (cfg_range cfg) (cfg_diagnostic cfg) (cfg_file cfg)
            ("Convert " +:+ A +:+ " to " +:+ B +:+ " with " +:+ fn)
            [ {| range := pointRange (line (start r)) (character (start r) - shift);
                 newText := fn +:+ "(" |};
              {| range := pointRange (line (end_ r)) (character (end_ r));
                 newText := ")" |} ]).
Proof.
  intros Hline HA HB Hfn Hlast Hslot r shift. unfold simpleConversion, JS.startsWith.
  rewrite Hline, prefix_append.
  assert (Hmatch : Regex.conversion
                     ("You can convert " +:+ A +:+ " to " +:+ B +:+ " with " +:+ fn
                      +:+ String lastChar EmptyString)
                   = Some (A, B, fn)).
  { apply search_here. unfold Regex.conversionAt.
    rewrite stripPrefix_append.
    rewrite (dropWhile_append _ A), (takeWhile_append _ A) by (assumption || reflexivity).
    rewrite stripPrefix_append.
    rewrite (dropWhile_append _ B), (takeWhile_append _ B) by (assumption || reflexivity).
    rewrite stripPrefix_append.
    destruct (Regex.isWordOrDot lastChar) eqn:Hclass.
    - assert (Hrun : allChars Regex.isWordOrDot (fn +:+ String lastChar EmptyString) = true)
        by (rewrite allChars_append, Hfn; simpl; now rewrite Hclass).
      destruct (takeWhile_all _ _ Hrun) as [-> ->].
      rewrite removeLast_append_char. now destruct fn.
    - rewrite (dropWhile_append _ fn), (takeWhile_append _ fn)
        by (assumption || (simpl; now rewrite Hclass)).
      now rewrite Hlast. }
  rewrite Hmatch, wrapRangeInText_edits.
  now apply pushes_expected.
Qed.

Lemma conversion_drops_the_last_character_witness :
  let cfg := sampleLineConfig [ "You can convert int to float with Belt.Float.fromInt" ] 0
               sampleRange in
  exists codeActions',
    simpleConversion cfg ∅ = (Normal true, codeActions')
    /\ pushedOnto ∅ codeActions' "src/Demo.res"
         (expectedAction sampleRange sampleDiagnostic "src/Demo.res"
            "Convert int to float with Belt.Float.fromIn"
            [ {| range := pointRange 3 4; newText := "Belt.Float.fromIn(" |};
              {| range := pointRange 3 9; newText := ")" |} ]).
Proof.
  cbv zeta.
  apply (conversion_drops_the_last_character
           (sampleLineConfig [ "You can convert int to float with Belt.Float.fromInt" ] 0
              sampleRange) ∅ "int" "float" "Belt.Float.fromIn" "t"%char);
    reflexivity.
Defined.

(** ** Record fields named on the following lines only *)

Section TrimFacts.

Lemma trimEnd_whiteSpace (ws : string) :
  allChars JS.isWhiteSpace ws = true -> JS.trimEnd ws = EmptyString.
Proof.
  induction ws as [|c ws IH]; [reflexivity|].
  simpl. intros [Hc Hws]%andb_prop. now rewrite (IH Hws), Hc.
Qed.

Lemma trimEnd_append_whiteSpace (s ws : string) :
  allChars JS.isWhiteSpace ws = true -> JS.trimEnd (s +:+ ws) = JS.trimEnd s.
Proof.
  intros Hws. induction s as [|c s IH].
  - rewrite append_nil_l. now apply trimEnd_whiteSpace.
  - rewrite append_cons. simpl. now rewrite IH.
Qed.

End TrimFacts.

(** X16. A trigger line of the record-fields extractor that has only white
    space after its colon gives no field names of its own. The names on the
    following lines are then not collected: with no line after it the
    extractor reports no match, and with a line after it the extractor throws
    (the dispatcher logs the error), so in both cases nothing is pushed. *)
Theorem record_fields_named_on_following_lines_are_lost
    (cfg : codeActionExtractorConfig) (codeActions : filesCodeActions) (ws : string) :
  cfg_line cfg = "Some record fields are undefined:" +:+ ws ->
  allChars JS.isWhiteSpace ws = true ->
  addUndefinedRecordFields cfg codeActions
  = match JS.arraySlice (cfg_array cfg) (cfg_index cfg + 1) with
    | [] => (Normal false, codeActions)
    | _ :: _ => (Throw (TypeError "recordFieldNames is undefined"), codeActions)
    end.
Proof.
  intros Hline Hws. unfold addUndefinedRecordFields, JS.startsWith.
  rewrite Hline, prefix_append.
  assert (Hnames : firstRecordFieldNames ("Some record fields are undefined:" +:+ ws) = None).
  { unfold firstRecordFieldNames, JS.trim.
    change (JS.trimStart ("Some record fields are undefined:" +:+ ws))
      with ("Some record fields are undefined:" +:+ ws).
    now rewrite trimEnd_append_whiteSpace. }
  rewrite Hnames. now destruct (JS.arraySlice _ _).
Qed.

Lemma record_fields_named_on_following_lines_are_lost_witness :
  let message := [ "Some record fields are undefined: "; "foo bar" ] in
  addUndefinedRecordFields (sampleLineConfig message 0 sampleRange) ∅
  = (Throw (TypeError "recordFieldNames is undefined"), ∅)
  /\ addUndefinedRecordFields (sampleLineConfig [ "Some record fields are undefined: " ] 0
                                 sampleRange) ∅
     = (Normal false, ∅).
Proof.
  cbv zeta. split.
  - apply (record_fields_named_on_following_lines_are_lost
             (sampleLineConfig [ "Some record fields are undefined: "; "foo bar" ] 0
                sampleRange) ∅ " "); reflexivity.
  - apply (record_fields_named_on_following_lines_are_lost
             (sampleLineConfig [ "Some record fields are undefined: " ] 0 sampleRange)
             ∅ " "); reflexivity.
Defined.

(** ** Positions of the edits *)

(** X17. Where the edits can leave the document. On a range with
    non-negative columns, [wrapRangeInText] keeps both edits at non-negative
    columns except for an empty range at column 0, whose opening edit lands
    at column -1; [insertBeforeEndingChar] inserts at a non-negative column
    exactly when the range does not end at column 0. All edits stay on the
    first or last line of the range. *)
Theorem edit_positions_and_the_left_margin (r : Range) (wrapStart wrapEnd text : string) :
  0 <= character (start r) ->
  0 <= character (end_ r) ->
  (Forall (fun e => 0 <= character (start (range e))) (wrapRangeInText r wrapStart wrapEnd)
   <-> ~ (start r = end_ r /\ character (start r) = 0))
  /\ (Forall (fun e => 0 <= character (start (range e))) (insertBeforeEndingChar r text)
      <-> character (end_ r) <> 0)
  /\ Forall (fun e => line (start (range e)) = line (start r)
                      \/ line (start (range e)) = line (end_ r))
            (wrapRangeInText r wrapStart wrapEnd ++ insertBeforeEndingChar r text).
Proof.
  intros Hs He. rewrite wrapRangeInText_edits. unfold insertBeforeEndingChar.
  split_and!.
  - rewrite !Forall_cons, Forall_nil. simpl. case_decide as Heq; split.
    + intros (Hopen & _) [_ Hzero]. lia.
    + intros Hnot. split; [|tauto]. destruct (decide (character (start r) = 0)); [tauto | lia].
    + intros _ [Hcontra _]. contradiction.
    + intros _. split; [lia | tauto].
  - rewrite Forall_cons, Forall_nil. simpl. split; [intros [Hpos _]; lia | intros Hne; split; [lia | exact I]].
  - repeat (apply List.Forall_cons || apply List.Forall_nil); simpl; tauto.
Qed.

Lemma edit_positions_and_the_left_margin_witness :
  let atMargin := pointRange 7 0 in
  ~ Forall (fun e => 0 <= character (start (range e))) (wrapRangeInText atMargin "Some(" ")")
  /\ wrapRangeInText atMargin "Some(" ")"
     = [ {| range := pointRange 7 (-1); newText := "Some(" |};
         {| range := pointRange 7 0; newText := ")" |} ].
Proof.
  cbv zeta. split; [|reflexivity].
  intros Hall.
  apply (proj1 (proj1 (edit_positions_and_the_left_margin (pointRange 7 0) "Some(" ")"
                         EmptyString ltac:(simpl; lia) ltac:(simpl; lia))) Hall).
  split; reflexivity.
Defined.

(** ** Running a pass twice *)

(** X18. The dispatcher does not look for actions that are already there:
    on a slot that is absent or holds an array, a second pass for the same
    diagnostic adds the same actions once more at the end of the array of the
    file. *)
Theorem second_pass_appends_the_same_actions_again
    (cfg : findCodeActionsConfig) (w : world) :
  arraySlot (fst w) (file cfg) = true ->
  let once := snd (findCodeActionsInDiagnosticsMessage cfg w) in
  let twice := snd (findCodeActionsInDiagnosticsMessage cfg once) in
  exists added,
    extendedBy (fst w) (fst once) (file cfg) added
    /\ extendedBy (fst w) (fst twice) (file cfg) (added ++ added)
    /\ entries (fst twice) (file cfg) = entries (fst w) (file cfg) ++ added ++ added.
Proof.
  destruct w as [codeActions log]. cbn [fst]. intros Hslot.
  destruct (pass_contribution cfg) as (added & errors & Hrun & _).
  cbv zeta. rewrite (Hrun codeActions log Hslot). cbn [fst snd].
  rewrite (Hrun _ _ (pushAll_arraySlot _ added _ Hslot)). cbn [fst snd].
  rewrite <- pushAll_app.
  exists added. split_and!; [apply pushAll_extendedBy .. | apply pushAll_entries].
Qed.

Lemma second_pass_appends_the_same_actions_again_witness :
  let cfg := sampleConfig [ "Hint: Did you mean foo" ] sampleRange in
  let once := snd (findCodeActionsInDiagnosticsMessage cfg (∅, [])) in
  let twice := snd (findCodeActionsInDiagnosticsMessage cfg once) in
  exists added,
    extendedBy ∅ (fst once) "src/Demo.res" added
    /\ extendedBy ∅ (fst twice) "src/Demo.res" (added ++ added)
    /\ entries (fst twice) "src/Demo.res" = entries ∅ "src/Demo.res" ++ added ++ added.
Proof.
  cbv zeta.
  apply (second_pass_appends_the_same_actions_again
           (sampleConfig [ "Hint: Did you mean foo" ] sampleRange) (∅, [])).
  reflexivity.
Defined.
